(** * zzz-fetcher: the character normalisation pipeline of [src/index.ts]

    A shallow embedding of the fetcher: the key normaliser, the stat
    filter, the skill level projector, the record assembler and the output
    namer, the orchestrator that runs them over the index, and the record
    assembler and output namer of the earlier script variant that names a
    file from the fetched detail record.

    Conventions of the embedding.
    - A JavaScript string is a [string], a sequence of code units.  The
      character classes of the regular expressions, [trim] and the case
      conversions are those of the ASCII range, where the keys and code
      names of the upstream data live: a code unit above 127 is an uncased
      symbol that is neither a letter, a digit nor white space.  JavaScript
      follows Unicode there, so what depends on the case of a key is stated
      for ASCII keys.
    - A JavaScript number is a binary64 [float]; [+], [-], [*] and [/] are
      the IEEE operations.
    - A plain object is the list of its own properties in the order in
      which [Object.entries] enumerates them; [o[k] = v] overwrites the
      property [k] in place or appends it, which is the order of
      JavaScript for keys that are not integer-like.  An object read from
      JSON holds each key once.  The stat filter, which copies the keys of
      the upstream record as they are, stores nothing under "__proto__", as
      in JavaScript; the other loops run on rewritten keys, and there every
      key is an ordinary property name.
    - A regular expression is a term of [Regex.Regex], run by a
      backtracking matcher; [replace] is [Regex.replaceAll] with the [g]
      flag and [Regex.replaceFirst] without it.
    - The network and the file system are a [Host]: the orchestrator
      threads the state of the file system through its calls, a rejected
      promise is [None], and no other process writes to the file system
      during a run. *)

From Stdlib Require Import Bool Arith Lia List NArith ZArith.
From Stdlib Require Import Ascii String DecimalString.
From Stdlib Require Import PrimFloat Uint63.
Import ListNotations.

Set Warnings "-register-all,-inexact-float".
Local Open Scope string_scope.
Local Open Scope bool_scope.

(** ** Code units and the built-in string operations *)

Module Js.

Definition code (c : ascii) : N := N_of_ascii c.

Definition inRange (lo hi : N) (c : ascii) : bool :=
  ((lo <=? code c) && (code c <=? hi))%N.

Definition isDigit : ascii -> bool := inRange 48 57.   (* 0-9 *)
Definition isUpper : ascii -> bool := inRange 65 90.   (* A-Z *)
Definition isLower : ascii -> bool := inRange 97 122.  (* a-z *)

(** [[a-zA-Z0-9]] *)
Definition isAlnum (c : ascii) : bool := isLower c || isUpper c || isDigit c.

(** A code unit of the ASCII range, where the case conversions below are
    those of JavaScript. *)
Definition isAscii (c : ascii) : bool := (code c <? 128)%N.

(** [[a-z0-9]] *)
Definition isLowerAlnum (c : ascii) : bool := isLower c || isDigit c.

(** [\s]: tab, line feed, vertical tab, form feed, carriage return, space. *)
Definition isSpace (c : ascii) : bool := inRange 9 13 c || (code c =? 32)%N.

(** The characters [.] refuses: line feed and carriage return. *)
Definition isLineTerminator (c : ascii) : bool :=
  (code c =? 10)%N || (code c =? 13)%N.

(** [toLowerCase] and [toUpperCase] on one code unit of the ASCII range.
    A code unit above 127 is left as it is, where JavaScript follows the
    case mapping of Unicode: a statement that depends on the case of such a
    code unit is made for ASCII strings only. *)
Definition toLowerChar (c : ascii) : ascii :=
  if isUpper c then ascii_of_N (code c + 32) else c.

Definition toUpperChar (c : ascii) : ascii :=
  if isLower c then ascii_of_N (code c - 32) else c.

Fixpoint mapChars (f : ascii -> ascii) (s : string) : string :=
  match s with
  | EmptyString => EmptyString
  | String c r => String (f c) (mapChars f r)
  end.

Definition toLowerCase : string -> string := mapChars toLowerChar.
Definition toUpperCase : string -> string := mapChars toUpperChar.

Fixpoint trimStart (s : string) : string :=
  match s with
  | EmptyString => EmptyString
  | String c r => if isSpace c then trimStart r else s
  end.

Fixpoint trimEnd (s : string) : string :=
  match s with
  | EmptyString => EmptyString
  | String c r =>
      match trimEnd r with
      | EmptyString => if isSpace c then EmptyString else String c EmptyString
      | t => String c t
      end
  end.

Definition trim (s : string) : string := trimEnd (trimStart s).

Definition startsWith (p s : string) : bool := String.prefix p s.

Fixpoint endsWith (p s : string) : bool :=
  (s =? p) ||
  match s with
  | EmptyString => false
  | String _ r => endsWith p r
  end.

Fixpoint includes (p s : string) : bool :=
  String.prefix p s ||
  match s with
  | EmptyString => false
  | String _ r => includes p r
  end.

(** [Number.prototype.toString] on a non-negative integer. *)
Definition intToString (n : N) : string :=
  NilZero.string_of_uint (N.to_uint n).

(** The number an integer literal denotes. *)
Definition intToNumber (n : N) : float :=
  PrimFloat.of_uint63 (Uint63.of_Z (Z.of_N n)).

End Js.

(** ** Regular expressions

    The fragment of the regular expressions of JavaScript that the program
    uses, with the backtracking semantics of the language: [+] is greedy
    and gives characters back one at a time, alternatives are tried from
    left to right, and there is at most one capturing group. *)

Module Regex.

Inductive Regex : Type :=
| Chars (p : ascii -> bool)   (* one character: a literal, a class or [.] *)
| Plus (p : ascii -> bool)    (* [c+] for a literal or a class [c] *)
| Group (r : Regex)           (* [(r)] *)
| Seq (r1 r2 : Regex)
| Alt (r1 r2 : Regex)         (* [r1|r2] *)
| Bol                         (* [^] *)
| Eol.                        (* [$] *)

(** A match: its text, the text of the group, and the input after it. *)
Record Found : Type := mkFound {
  text : string;
  group1 : option string;
  remainder : string
}.

(** One or more characters of [p], as many as the continuation accepts. *)
Fixpoint plusFrom (p : ascii -> bool) (taken s : string)
    (k : string -> string -> option Found) : option Found :=
  match s with
  | EmptyString => None
  | String c r =>
      if p c then
        match plusFrom p (taken ++ String c "") r k with
        | Some found => Some found
        | None => k (taken ++ String c "") r
        end
      else None
  end.

(** [atStart] says that no character of the input has been passed yet. *)
Fixpoint matchRe (r : Regex) (atStart : bool) (s : string)
    (group : option string)
    (k : string -> bool -> string -> option string -> option Found)
    : option Found :=
  match r with
  | Chars p =>
      match s with
      | EmptyString => None
      | String c rest =>
          if p c then k (String c "") false rest group else None
      end
  | Plus p => plusFrom p "" s (fun t rest => k t false rest group)
  | Group r1 =>
      matchRe r1 atStart s group (fun t a rest _ => k t a rest (Some t))
  | Seq r1 r2 =>
      matchRe r1 atStart s group
        (fun t1 a1 s1 g1 =>
           matchRe r2 a1 s1 g1 (fun t2 a2 s2 g2 => k (t1 ++ t2) a2 s2 g2))
  | Alt r1 r2 =>
      match matchRe r1 atStart s group k with
      | Some found => Some found
      | None => matchRe r2 atStart s group k
      end
  | Bol => if atStart then k "" atStart s group else None
  | Eol =>
      match s with
      | EmptyString => k "" atStart s group
      | String _ _ => None
      end
  end.

(** The match of [r] that starts at the head of [s], if there is one. *)
Definition exec (r : Regex) (atStart : bool) (s : string) : option Found :=
  matchRe r atStart s None (fun t _ rest g => Some (mkFound t g rest)).

(** [s.replace(/r/g, f)] from the head of [s]: [f] receives the text of the
    match and of its group.  The search resumes after a match, one
    character further when the match is empty; [fuel] bounds the number of
    steps. *)
Fixpoint replaceFrom (r : Regex) (f : string -> option string -> string)
    (fuel : nat) (atStart : bool) (s : string) : string :=
  match fuel with
  | O => s
  | S fuel' =>
      match exec r atStart s with
      | Some found =>
          if text found =? "" then
            f (text found) (group1 found) ++
            match s with
            | EmptyString => EmptyString
            | String c s' => String c (replaceFrom r f fuel' false s')
            end
          else
            f (text found) (group1 found) ++
            replaceFrom r f fuel' false (remainder found)
      | None =>
          match s with
          | EmptyString => EmptyString
          | String c s' => String c (replaceFrom r f fuel' false s')
          end
      end
  end.

Definition replaceAll (r : Regex) (f : string -> option string -> string)
    (s : string) : string :=
  replaceFrom r f (S (String.length s)) true s.

(** [s.replace(/r/, f)]: the first match only. *)
Fixpoint replaceFirstFrom (r : Regex) (f : string -> option string -> string)
    (atStart : bool) (s : string) : string :=
  match exec r atStart s with
  | Some found => f (text found) (group1 found) ++ remainder found
  | None =>
      match s with
      | EmptyString => EmptyString
      | String c s' => String c (replaceFirstFrom r f false s')
      end
  end.

Definition replaceFirst (r : Regex) (f : string -> option string -> string)
    (s : string) : string :=
  replaceFirstFrom r f true s.

End Regex.

Import Regex.

(** The classes and literals of the expressions of the program. *)
Definition notAlnum (c : ascii) : bool := negb (Js.isAlnum c).           (* [^a-zA-Z0-9] *)
Definition notLowerAlnum (c : ascii) : bool := negb (Js.isLowerAlnum c). (* [^a-z0-9] *)
Definition dot (c : ascii) : bool := negb (Js.isLineTerminator c).       (* . *)
Definition isLt (c : ascii) : bool := Ascii.eqb c "<".
Definition isGt (c : ascii) : bool := Ascii.eqb c ">".
Definition notGt (c : ascii) : bool := negb (isGt c).                    (* [^>] *)
Definition isHyphen (c : ascii) : bool := Ascii.eqb c "-".

(** ** The output namer: [slugify] *)

Definition slugify (name : string) : string :=
  let trimmed := Js.trim name in
  let lowered := Js.toLowerCase trimmed in
  let unspaced := replaceAll (Plus Js.isSpace) (fun _ _ => "") lowered in
  let hyphened := replaceAll (Plus notLowerAlnum) (fun _ _ => "-") unspaced in
  replaceAll
    (Group (Alt (Seq Bol (Plus isHyphen)) (Seq (Plus isHyphen) Eol)))
    (fun _ _ => "") hyphened.

(** ** JSON values and plain objects *)

Inductive JsonValue : Type :=
| JUndefined
| JNull
| JBool (b : bool)
| JNumber (n : float)
| JString (s : string)
| JArray (items : list JsonValue)
| JObject (entries : list (string * JsonValue)).

(** [RawCharacter = Record<string, unknown>] *)
Definition RawCharacter : Type := list (string * JsonValue).

Section JsonInduction.
Variable P : JsonValue -> Prop.
Hypothesis P_undefined : P JUndefined.
Hypothesis P_null : P JNull.
Hypothesis P_bool : forall b, P (JBool b).
Hypothesis P_number : forall n, P (JNumber n).
Hypothesis P_string : forall s, P (JString s).
Hypothesis P_array : forall items, Forall P items -> P (JArray items).
Hypothesis P_object :
  forall entries, Forall (fun kv => P (snd kv)) entries -> P (JObject entries).

Fixpoint JsonValue_nested_ind (v : JsonValue) : P v :=
  match v with
  | JUndefined => P_undefined
  | JNull => P_null
  | JBool b => P_bool b
  | JNumber n => P_number n
  | JString s => P_string s
  | JArray items =>
      P_array items
        ((fix all (l : list JsonValue) : Forall P l :=
            match l with
            | [] => Forall_nil P
            | x :: r => Forall_cons x (JsonValue_nested_ind x) (all r)
            end) items)
  | JObject entries =>
      P_object entries
        ((fix all (l : list (string * JsonValue))
            : Forall (fun kv => P (snd kv)) l :=
            match l with
            | [] => Forall_nil _
            | kv :: r =>
                Forall_cons kv (JsonValue_nested_ind (snd kv)) (all r)
            end) entries)
  end.
End JsonInduction.

Definition keys (o : RawCharacter) : list string := map fst o.

(** [o[k]] on an own property; [None] is the absent property. *)
Fixpoint getOwn (k : string) (o : RawCharacter) : option JsonValue :=
  match o with
  | [] => None
  | (k', v) :: r => if k' =? k then Some v else getOwn k r
  end.

(** [o[k]] as an expression: an absent property reads as [undefined]. *)
Definition get (k : string) (o : RawCharacter) : JsonValue :=
  match getOwn k o with
  | Some v => v
  | None => JUndefined
  end.

(** [o[k] = v] for an ordinary property name [k]: the property is
    overwritten in place, or appended.  (JavaScript enumerates the
    integer-like names first, and stores no property under "__proto__".) *)
Fixpoint set (k : string) (v : JsonValue) (o : RawCharacter) : RawCharacter :=
  match o with
  | [] => [(k, v)]
  | (k', v') :: r => if k' =? k then (k', v) :: r else (k', v') :: set k v r
  end.

(** [o[k] = v] for a value [v] that is neither an object nor [null], on an
    object that the literal [{}] created and that only such assignments
    changed: "__proto__" is no own property of it, the assignment reaches
    the setter that [Object.prototype] has under this name, and the setter
    ignores such a value.  Every other key is stored. *)
Definition setPrimitive (k : string) (v : JsonValue) (o : RawCharacter) : RawCharacter :=
  if k =? "__proto__" then o else set k v o.

(** An object read from JSON holds every key once. *)
Definition wellFormed (o : RawCharacter) : Prop := NoDup (keys o).

Definition isNumber (v : JsonValue) : bool :=
  match v with
  | JNumber _ => true
  | _ => false
  end.

(** [typeof v === "object"] *)
Definition typeofObject (v : JsonValue) : bool :=
  match v with
  | JNull | JArray _ | JObject _ => true
  | _ => false
  end.

(** The condition [if (v)]. *)
Definition truthy (v : JsonValue) : bool :=
  match v with
  | JUndefined | JNull => false
  | JBool b => b
  | JNumber n => negb (PrimFloat.eqb n 0 || PrimFloat.is_nan n)
  | JString s => negb (s =? "")
  | JArray _ | JObject _ => true
  end.

(** ** [simplifyStats] *)

Definition simplifyStats (stats : option RawCharacter) : option RawCharacter :=
  match stats with
  | None => None
  | Some stats =>
      let simplified :=
        fold_left
          (fun simplified '(key, entry) =>
             if isNumber entry then setPrimitive key entry simplified
             else simplified)
          stats []
      in
      if (List.length (keys simplified) =? 0)%nat then None else Some simplified
  end.

Definition getString (value : JsonValue) : option string :=
  match value with
  | JString s => Some s
  | _ => None
  end.

(** ** The key normaliser *)

(** [/[^a-zA-Z0-9]+(.)/g] and [(_, chr) => chr.toUpperCase()] *)
Definition separatorRegex : Regex := Seq (Plus notAlnum) (Group (Chars dot)).

Definition upperCapture (_ : string) (chr : option string) : string :=
  match chr with
  | Some chr => Js.toUpperCase chr
  | None => ""
  end.

(** [/^[A-Z]/] and [(chr) => chr.toLowerCase()] *)
Definition initialRegex : Regex := Seq Bol (Chars Js.isUpper).

Definition lowerMatch (chr : string) (_ : option string) : string :=
  Js.toLowerCase chr.

Definition toLowerCamelCase (key : string) : string :=
  replaceFirst initialRegex lowerMatch
    (replaceAll separatorRegex upperCapture key).

(** [/<([^>]+)>/g] and
    [(_, content) => (content.startsWith("IconMap:") ? `<${content}>` : "")] *)
Definition tagRegex : Regex :=
  Seq (Chars isLt) (Seq (Group (Plus notGt)) (Chars isGt)).

Definition replaceTag (content : string) : string :=
  if Js.startsWith "IconMap:" content then "<" ++ content ++ ">" else "".

Definition keepIconMap (_ : string) (content : option string) : string :=
  match content with
  | Some content => replaceTag content
  | None => ""
  end.

Definition stripHtmlTags (value : string) : string :=
  replaceAll tagRegex keepIconMap value.

Fixpoint normalizeKeys (value : JsonValue) : JsonValue :=
  match value with
  | JString s => JString (stripHtmlTags s)
  | JArray items => JArray (map normalizeKeys items)
  | JObject entries =>
      JObject
        (fold_left
           (fun normalized '(key, entry) =>
              set (toLowerCamelCase key) (normalizeKeys entry) normalized)
           entries [])
  | _ => value
  end.

(** ** The skill level projector *)

Definition TARGET_SKILL_LEVELS : list N := [12; 16]%N.

Definition shouldNormalizeAsPercent (key : string) (format : JsonValue) : bool :=
  let normalizedKey := Js.toLowerCase key in
  let formatString :=
    match format with
    | JString s => s
    | _ => ""
    end in
  if (normalizedKey =? "main") && Js.includes "%" formatString then true
  else Js.includes "percentage" normalizedKey || Js.includes "ratio" normalizedKey.

Definition buildLevelValues (stat : RawCharacter) : RawCharacter :=
  let format := get "format" stat in
  fold_left
    (fun levelValues level =>
       let values :=
         fold_left
           (fun values '(key, entry) =>
              match entry with
              | JNumber entry =>
                  if Js.endsWith "Growth" key then values
                  else
                    let growthKey := key ++ "Growth" in
                    let growthValue :=
                      match get growthKey stat with
                      | JNumber growth => growth
                      | _ => 0%float
                      end in
                    let raw :=
                      (entry + (Js.intToNumber level - 1) * growthValue)%float in
                    set key
                      (JNumber (if shouldNormalizeAsPercent key format
                                then (raw / 100)%float else raw))
                      values
              | _ => values
              end)
           stat [] in
       if (List.length (keys values) =? 0)%nat then levelValues
       else set (Js.intToString level) (JObject values) levelValues)
    TARGET_SKILL_LEVELS [].

(** The guard [stat.levelValues && typeof stat.levelValues === "object"]. *)
Definition hasLevelValues (stat : RawCharacter) : bool :=
  truthy (get "levelValues" stat) && typeofObject (get "levelValues" stat).

Definition convertParamStat (stat : RawCharacter) : RawCharacter :=
  if hasLevelValues stat then stat
  else
    let levelValues := buildLevelValues stat in
    let metadata :=
      fold_left
        (fun metadata '(key, entry) =>
           if negb (isNumber entry) || Js.endsWith "Growth" key
           then set key entry metadata
           else metadata)
        stat [] in
    if (List.length (keys levelValues) =? 0)%nat then metadata
    else set "levelValues" (JObject levelValues) metadata.

(** ** The output namer of [src/index.ts] *)

(** [a ?? b] *)
Definition nullish (a b : JsonValue) : JsonValue :=
  match a with
  | JUndefined | JNull => b
  | _ => a
  end.

(** [if (!code) return key] returns for [undefined] and for the empty
    string. *)
Definition getIndexFileName (key : string) (indexEntry : RawCharacter) : string :=
  let code := getString (nullish (get "CodeName" indexEntry) (get "code" indexEntry)) in
  match code with
  | None => key
  | Some code =>
      if code =? "" then key
      else
        let slug := slugify code in
        if (String.length slug =? 0)%nat then key else slug
  end.

(** ** The record assembler of [src/index.ts] *)

(** [Object.entries(v)] for a value [v] that is neither [null] nor
    [undefined]: the properties of an object, the elements of an array and
    the characters of a string under their indices, and nothing for a
    number or a boolean.  The casts [as RawCharacter | undefined] of the
    source check nothing, so this is what its loops enumerate. *)
Fixpoint indexedFrom {A : Type} (i : N) (l : list A) : list (string * A) :=
  match l with
  | [] => []
  | x :: r => (Js.intToString i, x) :: indexedFrom (N.succ i) r
  end.

Fixpoint characters (s : string) : list JsonValue :=
  match s with
  | EmptyString => []
  | String c r => JString (String c "") :: characters r
  end.

Definition entriesOf (v : JsonValue) : RawCharacter :=
  match v with
  | JObject o => o
  | JArray items => indexedFrom 0 items
  | JString s => indexedFrom 0 (characters s)
  | _ => []
  end.

(** The loop [for (const entry of ...) if (entry !== undefined) return entry]. *)
Fixpoint firstDefined (entries : list JsonValue) : JsonValue :=
  match entries with
  | [] => JUndefined
  | JUndefined :: rest => firstDefined rest
  | entry :: _ => entry
  end.

Definition pickFirstValue (value : JsonValue) : JsonValue :=
  if negb (truthy value) then JUndefined
  else firstDefined (map snd (entriesOf value)).

Definition formatRarity (value : JsonValue) : JsonValue :=
  match value with
  | JNumber n =>
      if PrimFloat.eqb n 3 || PrimFloat.eqb n 4 then
        if PrimFloat.eqb n 3 then JString "A" else JString "S"
      else value
  | _ => value
  end.

Fixpoint transformSkillParams (value : JsonValue) : JsonValue :=
  match value with
  | JArray items => JArray (map transformSkillParams items)
  | JObject entries =>
      JObject
        (fold_left
           (fun transformed '(key, entry) =>
              match entry with
              | JObject params =>
                  if key =? "param" then
                    let converted :=
                      fold_left
                        (fun converted '(paramKey, paramValue) =>
                           match paramValue with
                           | JObject stat =>
                               set paramKey (JObject (convertParamStat stat))
                                 converted
                           | _ => set paramKey paramValue converted
                           end)
                        params [] in
                    set key (JObject converted) transformed
                  else set key (transformSkillParams entry) transformed
              | _ => set key (transformSkillParams entry) transformed
              end)
           entries [])
  | _ => value
  end.

(** [stats] in [simplifyStats(stats)] after the cast and the test [!stats]. *)
Definition asRecord (v : JsonValue) : option RawCharacter :=
  if truthy v then Some (entriesOf v) else None.

(** [v?.Name] *)
Definition optionalName (v : JsonValue) : JsonValue :=
  match v with
  | JObject o => get "Name" o
  | _ => JUndefined
  end.

(** A [string | undefined] as a value. *)
Definition ofOptionalString (s : option string) : JsonValue :=
  match s with
  | Some s => JString s
  | None => JUndefined
  end.

Definition PASS_THROUGH_KEYS : list string :=
  ["Level"; "ExtraLevel"; "LevelEXP"; "Skill"; "SkillList"; "Passive";
   "Talent"; "FairyRecommend"; "Potential"; "PotentialDetail"; "Live2D"].

Definition simplifyCharacter (detail : RawCharacter) : RawCharacter :=
  let simplified : RawCharacter :=
    [("Id", get "Id" detail);
     ("Name", get "Name" detail);
     ("CodeName", get "CodeName" detail);
     ("Rarity", formatRarity (get "Rarity" detail));
     ("WeaponType", pickFirstValue (get "WeaponType" detail));
     ("ElementType", pickFirstValue (get "ElementType" detail));
     ("SpecialElementType",
      ofOptionalString
        (getString (optionalName (get "SpecialElementType" detail))));
     ("HitType", pickFirstValue (get "HitType" detail));
     ("Camp", pickFirstValue (get "Camp" detail))] in
  let stats := simplifyStats (asRecord (get "Stats" detail)) in
  let simplified :=
    match stats with
    | Some stats => set "Stats" (JObject stats) simplified
    | None => simplified
    end in
  let simplified :=
    fold_left
      (fun simplified key =>
         match get key detail with
         | JUndefined => simplified
         | entry => set key entry simplified
         end)
      PASS_THROUGH_KEYS simplified in
  match normalizeKeys (JObject simplified) with
  | JObject normalized =>
      if truthy (get "skill" normalized)
      then set "skill" (transformSkillParams (get "skill" normalized)) normalized
      else normalized
  | _ => []
  end.

(** ** The script that names a file from the fetched detail record *)

Module DetailScript.

Definition getString (value : JsonValue) : option string :=
  match value with
  | JString s => Some s
  | _ => None
  end.

Definition slugify (name : string) : string :=
  let trimmed := Js.trim name in
  let lowered := Js.toLowerCase trimmed in
  let unspaced := replaceAll (Plus Js.isSpace) (fun _ _ => "") lowered in
  let hyphened := replaceAll (Plus notLowerAlnum) (fun _ _ => "-") unspaced in
  replaceAll
    (Group (Alt (Seq Bol (Plus isHyphen)) (Seq (Plus isHyphen) Eol)))
    (fun _ _ => "") hyphened.

Definition getFileName (key : string) (detail : RawCharacter) : string :=
  let codeName := getString (get "CodeName" detail) in
  match codeName with
  | None => key
  | Some codeName =>
      if codeName =? "" then key
      else
        let slug := slugify codeName in
        if (String.length slug =? 0)%nat then key else slug
  end.

(** The record assembler of the same script: the object literal with the
    raw "Rarity", the optional "Stats", and the loop over the allowlist;
    [pickFirstValue], [simplifyStats] and [getString] have the text of their
    namesakes in [src/index.ts]. *)
Definition simplifyCharacter (detail : RawCharacter) : RawCharacter :=
  let simplified : RawCharacter :=
    [("Id", get "Id" detail);
     ("Name", get "Name" detail);
     ("CodeName", get "CodeName" detail);
     ("Rarity", get "Rarity" detail);
     ("WeaponType", pickFirstValue (get "WeaponType" detail));
     ("ElementType", pickFirstValue (get "ElementType" detail));
     ("SpecialElementType",
      ofOptionalString
        (getString (optionalName (get "SpecialElementType" detail))));
     ("HitType", pickFirstValue (get "HitType" detail));
     ("Camp", pickFirstValue (get "Camp" detail))] in
  let stats := simplifyStats (asRecord (get "Stats" detail)) in
  let simplified :=
    match stats with
    | Some stats => set "Stats" (JObject stats) simplified
    | None => simplified
    end in
  fold_left
    (fun simplified key =>
       match get key detail with
       | JUndefined => simplified
       | entry => set key entry simplified
       end)
    ["Level"; "ExtraLevel"; "LevelEXP"; "Skill"; "SkillList"; "Passive";
     "Talent"; "FairyRecommend"; "Potential"; "PotentialDetail"; "Live2D"]
    simplified.

End DetailScript.

(** ** The orchestrator of [src/index.ts]

    [main] talks to the network and to the file system through
    [node:fs/promises], [node:path], [fetch] and [JSON].  A [Host] gathers
    what it calls.  The state of the file system is a [World]; a call that
    returns a promise gives [None] when the promise rejects; [fetchJson]
    stands for the function of that name (request, status check, parsed
    body), by the address it is given. *)

Record Host : Type := mkHost {
  World : Type;
  access : string -> World -> bool;
  mkdir : string -> World -> option World;
  writeFile : string -> string -> World -> option World;
  fetchJson : string -> option JsonValue;
  join : string -> string -> string;
  dirname : string -> string;
  encodeURIComponent : string -> string;
  stringify : RawCharacter -> string
}.

(** What a file system keeps to while nothing else writes to it: creating
    a directory or writing a file removes no path, and a file that was
    written is there. *)
Record Lawful (host : Host) : Prop := mkLawful {
  mkdir_keeps : forall path other w w',
    mkdir host path w = Some w' ->
    access host other w = true -> access host other w' = true;
  writeFile_keeps : forall path content other w w',
    writeFile host path content w = Some w' ->
    access host other w = true -> access host other w' = true;
  writeFile_creates : forall path content w w',
    writeFile host path content w = Some w' -> access host path w' = true
}.

Definition CHARACTER_INDEX_URL : string :=
  "https://api.hakush.in/zzz/data/character.json".
Definition CHARACTER_DETAIL_URL : string :=
  "https://api.hakush.in/zzz/data/ja/character".
Definition OUTPUT_DIR : string := "output/character".

(** The line feed that ends the file. *)
Definition LF : string := String "010"%char EmptyString.

(** How a run of [main] ends: the message of the two counters, or the
    error message with exit code 1.  [saved] is the list of the files the
    run wrote, the latest first, each with the record serialised into it. *)
Inductive Outcome (W : Type) : Type :=
| Completed (w : W) (saved : list (string * RawCharacter))
    (fetchedCount skippedCount : nat)
| Failed (saved : list (string * RawCharacter)).

Arguments Completed {W} w saved fetchedCount skippedCount.
Arguments Failed {W} saved.

Definition savedBy {W : Type} (outcome : Outcome W) : list (string * RawCharacter) :=
  match outcome with
  | Completed _ saved _ _ => saved
  | Failed saved => saved
  end.

Section Orchestrator.
Variable host : Host.

Definition ensureDirectory (path : string) (w : World host) : option (World host) :=
  mkdir host path w.

Definition fileExists (path : string) (w : World host) : bool :=
  access host path w.

Definition saveSimplified (outputName : string) (data : RawCharacter)
    (w : World host) : option (World host) :=
  match ensureDirectory OUTPUT_DIR w with
  | None => None
  | Some w =>
      let destination := join host OUTPUT_DIR (outputName ++ ".json") in
      match ensureDirectory (dirname host destination) w with
      | None => None
      | Some w => writeFile host destination (stringify host data ++ LF) w
      end
  end.

(** The loop of [main] over [Object.keys(characterIndex)], for an index
    that is neither [null] nor [undefined].  [simplifyCharacter(detail)]
    throws on [null], whose properties cannot be read. *)
Fixpoint mainLoop (characterIndex : JsonValue) (indexKeys : list string)
    (w : World host) (saved : list (string * RawCharacter))
    (fetchedCount skippedCount : nat) : Outcome (World host) :=
  match indexKeys with
  | [] => Completed w saved fetchedCount skippedCount
  | key :: rest =>
      let indexEntry := get key (entriesOf characterIndex) in
      let outputName :=
        getIndexFileName key (entriesOf (nullish indexEntry (JObject []))) in
      let destination := join host OUTPUT_DIR (outputName ++ ".json") in
      if fileExists destination w
      then mainLoop characterIndex rest w saved fetchedCount (skippedCount + 1)
      else
        let detailUrl :=
          CHARACTER_DETAIL_URL ++ "/" ++ encodeURIComponent host key ++ ".json" in
        match fetchJson host detailUrl with
        | None => Failed saved
        | Some JNull | Some JUndefined => Failed saved
        | Some detail =>
            let simplified := simplifyCharacter (entriesOf detail) in
            match saveSimplified outputName simplified w with
            | None => Failed saved
            | Some w =>
                mainLoop characterIndex rest w
                  ((destination, simplified) :: saved)
                  (fetchedCount + 1) skippedCount
            end
        end
  end.

(** [Object.keys(null)] throws. *)
Definition main (w : World host) : Outcome (World host) :=
  match fetchJson host CHARACTER_INDEX_URL with
  | None => Failed []
  | Some characterIndex =>
      match ensureDirectory OUTPUT_DIR w with
      | None => Failed []
      | Some w =>
          match characterIndex with
          | JNull | JUndefined => Failed []
          | _ => mainLoop characterIndex (keys (entriesOf characterIndex)) w [] 0 0
          end
      end
  end.

(** The parts of the body of the loop, by name. *)
Definition destinationOf (characterIndex : JsonValue) (key : string) : string :=
  join host OUTPUT_DIR
    (getIndexFileName key
       (entriesOf (nullish (get key (entriesOf characterIndex)) (JObject [])))
     ++ ".json").

Definition detailUrlOf (key : string) : string :=
  CHARACTER_DETAIL_URL ++ "/" ++ encodeURIComponent host key ++ ".json".

(** A file written for a key of the index: the key is the first one with
    this destination, and the record is its simplified detail. *)
Definition writtenFor (characterIndex : JsonValue) (indexKeys : list string)
    (file : string * RawCharacter) : Prop :=
  exists before key after detail,
    indexKeys = (before ++ key :: after)%list /\
    fst file = destinationOf characterIndex key /\
    Forall (fun earlier => destinationOf characterIndex earlier <> fst file) before /\
    fetchJson host (detailUrlOf key) = Some detail /\
    snd file = simplifyCharacter (entriesOf detail).

End Orchestrator.

(** ** The shape shared by the copying loops

    [simplifyStats], [buildLevelValues] and [convertParamStat] each run
    [for (const [key, entry] of Object.entries(o)) if (...) acc[key] = ...]:
    one step of such a loop, and the entries it selects. *)

Definition collectStep (keep : string * JsonValue -> bool)
    (value : string * JsonValue -> JsonValue)
    (acc : RawCharacter) (kv : string * JsonValue) : RawCharacter :=
  if keep kv then set (fst kv) (value kv) acc else acc.

Definition collected (keep : string * JsonValue -> bool)
    (value : string * JsonValue -> JsonValue) (es : RawCharacter) : RawCharacter :=
  map (fun kv => (fst kv, value kv)) (filter keep es).

(** The parts of the body of [buildLevelValues], by name: the growth of a
    field, its projection at a level, the value stored for it, and the
    object [values] of one level. *)
Definition growthOf (stat : RawCharacter) (key : string) : float :=
  match get (key ++ "Growth") stat with
  | JNumber growth => growth
  | _ => 0%float
  end.

Definition rawLevelValue (stat : RawCharacter) (level : N) (key : string)
    (entry : float) : float :=
  (entry + (Js.intToNumber level - 1) * growthOf stat key)%float.

Definition storedLevelValue (stat : RawCharacter) (format : JsonValue)
    (level : N) (key : string) (entry : float) : float :=
  let raw := rawLevelValue stat level key entry in
  if shouldNormalizeAsPercent key format then (raw / 100)%float else raw.

Definition levelValuesAt (stat : RawCharacter) (level : N) : RawCharacter :=
  fold_left
    (fun values '(key, entry) =>
       match entry with
       | JNumber entry =>
           if Js.endsWith "Growth" key then values
           else set key
                  (JNumber (storedLevelValue stat (get "format" stat) level key entry))
                  values
       | _ => values
       end)
    stat [].

(** The fields [convertParamStat] copies. *)
Definition keptAsMetadata (kv : string * JsonValue) : bool :=
  negb (isNumber (snd kv)) || Js.endsWith "Growth" (fst kv).

(** The entries [simplifyStats] copies. *)
(** The entries the loop of [simplifyStats] stores. *)
Definition storedNumber (kv : string * JsonValue) : bool :=
  isNumber (snd kv) && negb (fst kv =? "__proto__").

(** The entries the inner loop of [buildLevelValues] does not skip, and
    what it stores for one of them. *)
Definition projectable (kv : string * JsonValue) : bool :=
  isNumber (snd kv) && negb (Js.endsWith "Growth" (fst kv)).

Definition projectedValue (stat : RawCharacter) (level : N)
    (kv : string * JsonValue) : JsonValue :=
  match snd kv with
  | JNumber entry =>
      JNumber (storedLevelValue stat (get "format" stat) level (fst kv) entry)
  | v => v
  end.

(** ** The replacements as scanners

    What the two replacements of the key normaliser compute, read from left
    to right with the part of a match seen so far as the state.  The
    functions of the program are proved equal to them below, and their
    properties are proved on them. *)

(** The scanner of [/[^a-zA-Z0-9]+(.)/g]: either outside a match, or inside
    the run [first :: more] of characters that are not alphanumeric. *)
Inductive CamelState : Type :=
| Plain
| Run (first : ascii) (more : string).

(** The last character of a run that [(.)] can capture, with the line
    terminators that follow it. *)
Fixpoint lastCapture (run : string) : option (ascii * string) :=
  match run with
  | EmptyString => None
  | String c r =>
      match lastCapture r with
      | Some found => Some found
      | None => if Js.isLineTerminator c then None else Some (c, r)
      end
  end.

(** The input ends inside a run: the expression backtracks and captures
    the last character of the run it can; what follows stays, and when it
    can capture none the run stays whole. *)
Definition closeRun (first : ascii) (more : string) : string :=
  match lastCapture more with
  | Some (chr, rest) => String (Js.toUpperChar chr) rest
  | None => String first more
  end.

Fixpoint camelScan (st : CamelState) (s : string) : string :=
  match s with
  | EmptyString =>
      match st with
      | Plain => EmptyString
      | Run first more => closeRun first more
      end
  | String c r =>
      match st with
      | Plain =>
          if Js.isAlnum c then String c (camelScan Plain r)
          else camelScan (Run c EmptyString) r
      | Run first more =>
          if Js.isAlnum c then String (Js.toUpperChar c) (camelScan Plain r)
          else camelScan (Run first (more ++ String c EmptyString)) r
      end
  end.

(** [.replace(/^[A-Z]/, (chr) => chr.toLowerCase())] *)
Definition lowerFirst (s : string) : string :=
  match s with
  | EmptyString => EmptyString
  | String c r => if Js.isUpper c then String (Js.toLowerChar c) r else s
  end.

(** The scanner of [/<([^>]+)>/g]: [tag] is the content read since an
    opening bracket, when there is one. *)
Fixpoint stripScan (tag : option string) (s : string) : string :=
  match s with
  | EmptyString =>
      match tag with
      | None => EmptyString
      | Some content => "<" ++ content
      end
  | String c r =>
      match tag with
      | None =>
          if isLt c then stripScan (Some EmptyString) r
          else String c (stripScan None r)
      | Some content =>
          if isGt c then
            match content with
            | EmptyString => "<>" ++ stripScan None r
            | _ => replaceTag content ++ stripScan None r
            end
          else stripScan (Some (content ++ String c EmptyString)) r
      end
  end.

(** What [separatorRegex] still has to do after its run: capture one
    character that is not a line terminator. *)
Definition captureDot (t rest : string) : option Found :=
  match rest with
  | EmptyString => None
  | String d rest' =>
      if dot d
      then Some (mkFound (t ++ String d "") (Some (String d "")) rest')
      else None
  end.

(** The replacements of [slugify] as scanners.  [replaceRuns p rep] is
    [.replace(/c+/g, rep)] for the class [p] of [c]: [inRun] says that the
    character just read belongs to a run that is already replaced.
    [dropTrailingHyphens (dropLeadingHyphens s)] is
    [.replace(/(^-+|-+$)/g, "")]. *)
Fixpoint replaceRuns (p : ascii -> bool) (rep : string) (inRun : bool)
    (s : string) : string :=
  match s with
  | EmptyString => EmptyString
  | String c r =>
      if p c then
        if inRun then replaceRuns p rep true r
        else rep ++ replaceRuns p rep true r
      else String c (replaceRuns p rep false r)
  end.

Fixpoint takeWhile (p : ascii -> bool) (s : string) : string :=
  match s with
  | EmptyString => EmptyString
  | String c r => if p c then String c (takeWhile p r) else EmptyString
  end.

Fixpoint dropWhile (p : ascii -> bool) (s : string) : string :=
  match s with
  | EmptyString => EmptyString
  | String c r => if p c then dropWhile p r else s
  end.

Definition dropLeadingHyphens : string -> string := dropWhile isHyphen.

Fixpoint dropTrailingHyphens (s : string) : string :=
  match s with
  | EmptyString => EmptyString
  | String c r =>
      match dropTrailingHyphens r with
      | EmptyString => if isHyphen c then EmptyString else String c EmptyString
      | t => String c t
      end
  end.

(** [/(^-+|-+$)/g] *)
Definition edgeRegex : Regex :=
  Group (Alt (Seq Bol (Plus isHyphen)) (Seq (Plus isHyphen) Eol)).

(** The characters of a slug, and a string without two hyphens in a row. *)
Definition slugChar (c : ascii) : bool := Js.isLowerAlnum c || isHyphen c.

Definition startsUpper (s : string) : bool :=
  match s with
  | EmptyString => false
  | String c _ => Js.isUpper c
  end.

Definition headIsHyphen (s : string) : bool :=
  match s with
  | EmptyString => false
  | String c _ => isHyphen c
  end.

Fixpoint noDoubleHyphen (s : string) : bool :=
  match s with
  | EmptyString => true
  | String c r =>
      match r with
      | String d _ => negb (isHyphen c && isHyphen d)
      | EmptyString => true
      end && noDoubleHyphen r
  end.

(** ** Predicates on strings used in the statements *)

Fixpoint allChars (p : ascii -> bool) (s : string) : bool :=
  match s with
  | EmptyString => true
  | String c r => p c && allChars p r
  end.

(** An integer-like property name, which JavaScript enumerates before
    the other keys whatever the order of insertion, starts with a digit. *)
Definition startsDigit (s : string) : bool :=
  match s with
  | EmptyString => false
  | String c _ => Js.isDigit c
  end.

Definition asciiKey (key : string) : bool := allChars Js.isAscii key.

(** Every key of every object of a value, at any depth, is ASCII. *)
Fixpoint asciiKeys (v : JsonValue) : bool :=
  match v with
  | JArray items => forallb asciiKeys items
  | JObject entries =>
      forallb (fun kv => asciiKey (fst kv) && asciiKeys (snd kv)) entries
  | _ => true
  end.

Definition notLt (c : ascii) : bool := negb (isLt c).

(** A string [camelScan] has nothing left to do on after its alphanumeric
    prefix: empty, or one character that is not alphanumeric followed by
    line terminators only. *)
Definition settledTail (t : string) : bool :=
  match t with
  | EmptyString => true
  | String x r => notAlnum x && allChars Js.isLineTerminator r
  end.

(** One pass of the loop of [normalizeKeys] over the entries of an object. *)
Definition normalizeEntry (normalized : RawCharacter)
    '((key, entry) : string * JsonValue) : RawCharacter :=
  set (toLowerCamelCase key) (normalizeKeys entry) normalized.

(** An entry that [normalizeKeys] leaves as it is. *)
Definition normalEntry (kv : string * JsonValue) : Prop :=
  toLowerCamelCase (fst kv) = fst kv /\ normalizeKeys (snd kv) = snd kv.

(** The parts of the body of [transformSkillParams], by name: what is
    stored for a child of a "param" object, the loop over those children,
    and what is stored for an entry of an object. *)
Definition convertedValue (paramValue : JsonValue) : JsonValue :=
  match paramValue with
  | JObject stat => JObject (convertParamStat stat)
  | _ => paramValue
  end.

Definition convertParams (params : RawCharacter) : RawCharacter :=
  fold_left
    (fun converted '(paramKey, paramValue) =>
       match paramValue with
       | JObject stat => set paramKey (JObject (convertParamStat stat)) converted
       | _ => set paramKey paramValue converted
       end)
    params [].

Definition transformedValue (key : string) (entry : JsonValue) : JsonValue :=
  match entry with
  | JObject params =>
      if key =? "param" then JObject (convertParams params)
      else transformSkillParams entry
  | _ => transformSkillParams entry
  end.

(** Objects with distinct keys, at every depth. *)
Fixpoint distinct (l : list string) : bool :=
  match l with
  | [] => true
  | k :: r => negb (existsb (String.eqb k) r) && distinct r
  end.

Fixpoint wellFormedDeep (v : JsonValue) : bool :=
  match v with
  | JArray items => forallb wellFormedDeep items
  | JObject entries =>
      distinct (map fst entries) &&
      forallb (fun kv => wellFormedDeep (snd kv)) entries
  | _ => true
  end.

Definition isDefined (v : JsonValue) : bool :=
  match v with
  | JUndefined => false
  | _ => true
  end.

Definition sampleSkill : JsonValue :=
  JObject
    [("Basic",
      JArray
        [JObject
           [("desc", JString "hit");
            ("param",
             JObject
               [("dmg",
                 JObject [("main", JNumber 100); ("mainGrowth", JNumber 10);
                          ("format", JString "%")]);
                ("note", JString "x")])]])].

(** The parts of the body of [simplifyCharacter], by name: the object
    literal, the optional "Stats" field, the fields the loop over
    [PASS_THROUGH_KEYS] copies, and an entry as [normalizeKeys] rewrites it
    when no two keys collide. *)
Definition baseFields (detail : RawCharacter) : RawCharacter :=
  [("Id", get "Id" detail);
   ("Name", get "Name" detail);
   ("CodeName", get "CodeName" detail);
   ("Rarity", formatRarity (get "Rarity" detail));
   ("WeaponType", pickFirstValue (get "WeaponType" detail));
   ("ElementType", pickFirstValue (get "ElementType" detail));
   ("SpecialElementType",
    ofOptionalString
      (getString (optionalName (get "SpecialElementType" detail))));
   ("HitType", pickFirstValue (get "HitType" detail));
   ("Camp", pickFirstValue (get "Camp" detail))].

Definition statsField (detail : RawCharacter) : RawCharacter :=
  match simplifyStats (asRecord (get "Stats" detail)) with
  | Some stats => [("Stats", JObject stats)]
  | None => []
  end.

Definition passThroughFields (detail : RawCharacter) : RawCharacter :=
  map (fun key => (key, get key detail))
    (filter (fun key => isDefined (get key detail)) PASS_THROUGH_KEYS).

Definition normalizedPair (kv : string * JsonValue) : string * JsonValue :=
  (toLowerCamelCase (fst kv), normalizeKeys (snd kv)).

Definition BASE_KEYS : list string :=
  ["Id"; "Name"; "CodeName"; "Rarity"; "WeaponType"; "ElementType";
   "SpecialElementType"; "HitType"; "Camp"].

Definition sampleDetail : RawCharacter :=
  [("Id", JNumber 1041);
   ("Name", JString "<b>Soldier</b> 11");
   ("CodeName", JString "Soldier 11");
   ("Rarity", JNumber 4);
   ("WeaponType", JObject [("1", JString "Attack")]);
   ("Stats", JObject [("HP", JNumber 100); ("Note", JString "x")]);
   ("Skill", sampleSkill);
   ("Extra", JNumber 1)].

Definition simplifiedFields (detail : RawCharacter) : RawCharacter :=
  (baseFields detail ++ statsField detail ++ passThroughFields detail)%list.

(** The last step of [simplifyCharacter]. *)
Definition transformSkill (normalized : RawCharacter) : RawCharacter :=
  if truthy (get "skill" normalized)
  then set "skill" (transformSkillParams (get "skill" normalized)) normalized
  else normalized.

(** ** Sample blocks *)

Definition codeNamedEntry : RawCharacter := [("code", JString "Soldier 11")].
Definition codeNamedDetail : RawCharacter :=
  [("Id", JNumber 1041); ("CodeName", JString "Soldier 11")].

Definition damageStat : RawCharacter :=
  [("format", JString ""); ("damage", JNumber 100); ("damageGrowth", JNumber 10)].

Definition hpPercentageStat : RawCharacter :=
  [("format", JString ""); ("hpPercentage", JNumber 100);
   ("hpPercentageGrowth", JNumber 10)].

Definition damageRatioStat : RawCharacter :=
  [("damageRatio", JNumber 100); ("damageRatioGrowth", JNumber 10)].

Definition nullTableStat : RawCharacter :=
  [("levelValues", JNull); ("damage", JNumber 100); ("damageGrowth", JNumber 10)].

Definition processedStat : RawCharacter :=
  [("format", JString "%"); ("main", JNumber 100);
   ("levelValues", JObject [("12", JObject [("main", JNumber 2)])])].

Definition mixedStats : RawCharacter :=
  [("HP", JNumber 100); ("HPGrowth", JNumber 5); ("Note", JString "x")].

(** A host for the examples: the file system is the list of the paths
    that were created, two index entries share a file name, and the detail
    of the first is on the network. *)
Definition sampleIndex : JsonValue :=
  JObject
    [("1041", JObject [("code", JString "Soldier 11")]);
     ("1042", JObject [("code", JString "soldier11")])].

Definition sampleHost : Host :=
  {| World := list string;
     access := fun path w => existsb (String.eqb path) w;
     mkdir := fun path w => Some (path :: w);
     writeFile := fun path _ w => Some (path :: w);
     fetchJson := fun url =>
       if url =? CHARACTER_INDEX_URL then Some sampleIndex
       else if url =? CHARACTER_DETAIL_URL ++ "/1041.json"
            then Some (JObject sampleDetail)
            else None;
     join := fun a b => a ++ "/" ++ b;
     dirname := fun _ => OUTPUT_DIR;
     encodeURIComponent := fun key => key;
     stringify := fun _ => EmptyString |}.

(** ** Worked examples *)

Example camel_1 : toLowerCamelCase "Foo_Bar" = "fooBar". Proof. reflexivity. Qed.
Example camel_2 : toLowerCamelCase "max_HP growth" = "maxHPGrowth". Proof. reflexivity. Qed.
Example camel_3 : toLowerCamelCase "a__" = "a_". Proof. reflexivity. Qed.
Example strip_1 : stripHtmlTags "a<b>c<IconMap:x>d<>e<f" = "ac<IconMap:x>d<>e<f". Proof. reflexivity. Qed.
Example strip_2 : stripHtmlTags "<<b>b>" = "b>". Proof. reflexivity. Qed.
Example levels_1 :
  buildLevelValues [("format", JString ""); ("damage", JNumber 100); ("damageGrowth", JNumber 10)]
  = [("12", JObject [("damage", JNumber 210)]); ("16", JObject [("damage", JNumber 250)])].
Proof. reflexivity. Qed.
Example convert_1 :
  convertParamStat [("format", JString ""); ("damage", JNumber 100); ("damageGrowth", JNumber 10)]
  = [("format", JString ""); ("damageGrowth", JNumber 10);
     ("levelValues", JObject [("12", JObject [("damage", JNumber 210)]); ("16", JObject [("damage", JNumber 250)])])].
Proof. reflexivity. Qed.
Example slugify_1 : slugify "  Soldier 11 " = "soldier11". Proof. reflexivity. Qed.

(** ** Properties of plain objects *)

Section ObjectFacts.
Local Open Scope list_scope.

Lemma getOwn_absent k (o : RawCharacter) :
  ~ In k (keys o) -> getOwn k o = None.
Proof.
  induction o as [|[k' v'] r IH]; simpl; intros Hk; [reflexivity|].
  destruct (String.eqb_spec k' k) as [->|_]; [tauto|].
  apply IH; tauto.
Qed.

Lemma getOwn_present k v (o : RawCharacter) :
  getOwn k o = Some v -> In (k, v) o.
Proof.
  induction o as [|[k' v'] r IH]; simpl; [discriminate|].
  destruct (String.eqb_spec k' k) as [->|_]; intros H.
  - injection H as ->; now left.
  - right; now apply IH.
Qed.

Lemma getOwn_In k v (o : RawCharacter) :
  wellFormed o -> In (k, v) o -> getOwn k o = Some v.
Proof.
  unfold wellFormed.
  induction o as [|[k' v'] r IH]; simpl; intros Hnd Hin; [tauto|].
  inversion Hnd as [|? ? Hk' Hr]; subst.
  destruct Hin as [Heq|Hin].
  - injection Heq as -> ->. now rewrite String.eqb_refl.
  - destruct (String.eqb_spec k' k) as [->|_]; [|now apply IH].
    exfalso; apply Hk'. change k with (fst (k, v)). now apply in_map.
Qed.

Lemma set_fresh k v (o : RawCharacter) :
  ~ In k (keys o) -> set k v o = o ++ [(k, v)].
Proof.
  induction o as [|[k' v'] r IH]; simpl; intros Hk; [reflexivity|].
  destruct (String.eqb_spec k' k) as [->|_]; [tauto|].
  rewrite IH; tauto.
Qed.

Lemma getOwn_set_same k v (o : RawCharacter) :
  getOwn k (set k v o) = Some v.
Proof.
  induction o as [|[k' v'] r IH]; simpl.
  - now rewrite String.eqb_refl.
  - destruct (String.eqb_spec k' k) as [->|Hne]; simpl.
    + now rewrite String.eqb_refl.
    + destruct (String.eqb_spec k' k); [contradiction|exact IH].
Qed.

Lemma getOwn_set_other k k' v (o : RawCharacter) :
  k' <> k -> getOwn k (set k' v o) = getOwn k o.
Proof.
  intros Hne.
  induction o as [|[k0 v0] r IH]; simpl.
  - destruct (String.eqb_spec k' k); [contradiction|reflexivity].
  - destruct (String.eqb_spec k0 k') as [->|Hne0]; simpl.
    + destruct (String.eqb_spec k' k); [contradiction|reflexivity].
    + now rewrite IH.
Qed.

Lemma keys_set k v (o : RawCharacter) :
  keys (set k v o) = if existsb (String.eqb k) (keys o) then keys o
                     else keys o ++ [k].
Proof.
  induction o as [|[k' v'] r IH]; simpl; [reflexivity|].
  rewrite (String.eqb_sym k k').
  destruct (String.eqb_spec k' k) as [->|_]; simpl; [reflexivity|].
  rewrite IH. now destruct (existsb _ _).
Qed.

Lemma existsb_eqb_In k (l : list string) :
  existsb (String.eqb k) l = true <-> In k l.
Proof.
  rewrite existsb_exists. split.
  - intros (x & Hx & Heq). apply String.eqb_eq in Heq. now subst.
  - intros H. exists k. split; [exact H|apply String.eqb_refl].
Qed.

Lemma wellFormed_set k v (o : RawCharacter) :
  wellFormed o -> wellFormed (set k v o).
Proof.
  unfold wellFormed. intros Hnd. rewrite keys_set.
  destruct (existsb (String.eqb k) (keys o)) eqn:E; [exact Hnd|].
  assert (Hk : ~ In k (keys o)).
  { intros Hin. apply existsb_eqb_In in Hin. congruence. }
  apply NoDup_app; [exact Hnd|repeat constructor; simpl; tauto|].
  intros x Hx [<-|[]]. contradiction.
Qed.

(** A loop that copies or rewrites some of the entries of an object with
    distinct keys builds the list of the entries it copies. *)
Variable keep : string * JsonValue -> bool.
Variable value : string * JsonValue -> JsonValue.

Local Abbreviation collected := (collected keep value).
Local Abbreviation collectStep := (collectStep keep value).

Lemma keys_collected_incl es k :
  In k (keys (collected es)) -> In k (keys es).
Proof.
  unfold collected, keys. rewrite map_map. simpl.
  rewrite !in_map_iff. intros (kv & <- & Hin).
  apply filter_In in Hin. exists kv. tauto.
Qed.

Lemma fold_collect es : forall acc,
  NoDup (keys acc ++ keys es) ->
  fold_left collectStep es acc = acc ++ collected es.
Proof.
  induction es as [|[k v] r IH]; intros acc Hnd; simpl.
  - unfold collected. simpl. now rewrite app_nil_r.
  - simpl in Hnd.
    assert (Hk : ~ In k (keys acc)).
    { intros Hin. apply NoDup_remove_2 in Hnd. apply Hnd.
      apply in_or_app. now left. }
    unfold collectStep at 2, collected. simpl.
    destruct (keep (k, v)); simpl.
    + rewrite IH.
      * rewrite set_fresh by exact Hk. now rewrite <- app_assoc.
      * rewrite set_fresh by exact Hk. unfold keys. rewrite map_app. simpl.
        rewrite <- app_assoc. exact Hnd.
    + apply IH. now apply NoDup_remove_1 in Hnd.
Qed.

Lemma getOwn_collected es k :
  wellFormed es ->
  getOwn k (collected es) =
  match getOwn k es with
  | Some v => if keep (k, v) then Some (value (k, v)) else None
  | None => None
  end.
Proof.
  unfold wellFormed.
  induction es as [|[k' v'] r IH]; intros Hnd; [reflexivity|].
  simpl in Hnd. inversion Hnd as [|? ? Hk' Hr]; subst.
  unfold collected. simpl.
  destruct (String.eqb_spec k' k) as [->|Hne].
  - destruct (keep (k, v')); simpl.
    + now rewrite String.eqb_refl.
    + apply getOwn_absent. intros Hin. apply Hk'.
      now apply keys_collected_incl.
  - destruct (keep (k', v')); simpl.
    + destruct (String.eqb_spec k' k); [contradiction|]. now apply IH.
    + now apply IH.
Qed.

End ObjectFacts.

Lemma fold_left_pointwise {A B} (f g : A -> B -> A) (l : list B) :
  (forall a b, f a b = g a b) ->
  forall a, fold_left f l a = fold_left g l a.
Proof.
  intros Hfg. induction l as [|b r IH]; intros a; simpl; [reflexivity|].
  now rewrite Hfg, IH.
Qed.

Lemma fold_collect_empty keep value (es : RawCharacter) :
  wellFormed es ->
  fold_left (collectStep keep value) es [] = collected keep value es.
Proof.
  intros Hwf. now rewrite fold_collect.
Qed.

Lemma collected_nil_iff keep value (es : RawCharacter) :
  collected keep value es = [] <-> forall kv, In kv es -> keep kv = false.
Proof.
  unfold collected. split.
  - intros Hnil kv Hin. destruct (keep kv) eqn:E; [|reflexivity].
    assert (Hf : In kv (filter keep es)) by (apply filter_In; tauto).
    apply (in_map (fun kv => (fst kv, value kv))) in Hf.
    rewrite Hnil in Hf. destruct Hf.
  - intros Hall. induction es as [|kv r IH]; [reflexivity|]. simpl.
    rewrite (Hall kv (or_introl eq_refl)). apply IH.
    intros kv' Hin. apply Hall. now right.
Qed.

(** ** The stat block filter *)

Lemma simplifyStats_spec (M : RawCharacter) :
  wellFormed M ->
  simplifyStats (Some M) =
  match collected storedNumber snd M with
  | [] => None
  | out => Some out
  end.
Proof.
  intros Hwf. unfold simplifyStats.
  rewrite (fold_left_pointwise _ (collectStep storedNumber snd)).
  - rewrite fold_collect_empty by exact Hwf.
    now destruct (collected storedNumber snd M).
  - intros acc [k v]. unfold collectStep, storedNumber, setPrimitive. simpl.
    destruct (isNumber v); [|reflexivity].
    now destruct (k =? "__proto__").
Qed.

Lemma storedNumber_eq k v :
  storedNumber (k, v) = isNumber v && negb (k =? "__proto__").
Proof. reflexivity. Qed.

(** C9. [simplifyStats] does not keep a number that is stored under the
    key "__proto__": for the mapping that holds nothing else it returns the
    absent result, and beside another numeric entry it returns a mapping
    without this key. *)
Theorem simplifyStats_drops_proto_key :
  simplifyStats (Some [("__proto__", JNumber 5)]) = None /\
  simplifyStats (Some [("HP", JNumber 100); ("__proto__", JNumber 5)])
  = Some [("HP", JNumber 100)].
Proof. split; reflexivity. Qed.

(** X22. For a mapping [M] with distinct keys: a number stored under a
    key other than "__proto__" is in the mapping [simplifyStats] returns,
    under the same key; a key whose value is not a number is in no mapping
    it returns, and neither is "__proto__"; and when no entry under another
    key than "__proto__" is a number it returns the absent result. *)
Theorem simplifyStats_keeps_the_numbers_of_ordinary_keys (M : RawCharacter) :
  wellFormed M ->
  (forall k n, k <> "__proto__" -> getOwn k M = Some (JNumber n) ->
     exists out, simplifyStats (Some M) = Some out /\
                 getOwn k out = Some (JNumber n)) /\
  (forall k v, getOwn k M = Some v -> isNumber v = false ->
     forall out, simplifyStats (Some M) = Some out -> getOwn k out = None) /\
  (forall out, simplifyStats (Some M) = Some out ->
     getOwn "__proto__" out = None) /\
  ((forall k v, In (k, v) M -> isNumber v = false \/ k = "__proto__") ->
     simplifyStats (Some M) = None).
Proof.
  intros Hwf. rewrite simplifyStats_spec by exact Hwf.
  pose proof (fun k => getOwn_collected storedNumber snd M k Hwf) as Hget.
  split; [|split; [|split]].
  - intros k n Hne Hk. specialize (Hget k). rewrite Hk in Hget.
    rewrite storedNumber_eq in Hget.
    apply String.eqb_neq in Hne. rewrite Hne in Hget. cbn in Hget.
    destruct (collected storedNumber snd M) as [|e out] eqn:E.
    + discriminate Hget.
    + exists (e :: out). split; [reflexivity|exact Hget].
  - intros k v Hk Hv out Hout. specialize (Hget k). rewrite Hk in Hget.
    rewrite storedNumber_eq, Hv in Hget. cbn [andb] in Hget.
    destruct (collected storedNumber snd M); [discriminate|].
    injection Hout as <-. exact Hget.
  - intros out Hout. specialize (Hget "__proto__").
    assert (Hnone : getOwn "__proto__" (collected storedNumber snd M) = None).
    { destruct (getOwn "__proto__" M) as [v|]; [|exact Hget].
      rewrite storedNumber_eq, String.eqb_refl, andb_false_r in Hget.
      exact Hget. }
    destruct (collected storedNumber snd M); [discriminate|].
    injection Hout as <-. exact Hnone.
  - intros Hall.
    assert (Hnil : collected storedNumber snd M = []).
    { apply collected_nil_iff. intros [k v] Hin. rewrite storedNumber_eq.
      destruct (Hall k v Hin) as [->| ->]; [reflexivity|].
      rewrite String.eqb_refl. apply andb_false_r. }
    now rewrite Hnil.
Qed.

(** ** The skill level projector *)

Lemma levelValuesAt_spec (stat : RawCharacter) (level : N) :
  wellFormed stat ->
  levelValuesAt stat level = collected projectable (projectedValue stat level) stat.
Proof.
  intros Hwf. unfold levelValuesAt.
  rewrite (fold_left_pointwise _
             (collectStep projectable (projectedValue stat level))).
  - now apply fold_collect_empty.
  - intros acc [k v]. unfold collectStep, projectable, projectedValue. simpl.
    destruct v; try reflexivity. simpl.
    now destruct (Js.endsWith "Growth" k).
Qed.

Lemma getOwn_levelValuesAt (stat : RawCharacter) (level : N) (key : string) :
  wellFormed stat ->
  getOwn key (levelValuesAt stat level) =
  match getOwn key stat with
  | Some (JNumber entry) =>
      if Js.endsWith "Growth" key then None
      else Some (JNumber (storedLevelValue stat (get "format" stat) level key entry))
  | _ => None
  end.
Proof.
  intros Hwf. rewrite levelValuesAt_spec by exact Hwf.
  rewrite getOwn_collected by exact Hwf.
  destruct (getOwn key stat) as [v|]; [|reflexivity].
  unfold projectable, projectedValue. simpl.
  destruct v; try reflexivity. simpl.
  now destruct (Js.endsWith "Growth" key).
Qed.

Lemma levelValuesAt_nil_iff (stat : RawCharacter) (level : N) :
  wellFormed stat ->
  levelValuesAt stat level = [] <->
  forall kv, In kv stat -> projectable kv = false.
Proof.
  intros Hwf. rewrite levelValuesAt_spec by exact Hwf.
  apply collected_nil_iff.
Qed.

Lemma buildLevelValues_levels (stat : RawCharacter) :
  buildLevelValues stat =
  fold_left
    (fun levelValues level =>
       match levelValuesAt stat level with
       | [] => levelValues
       | values => set (Js.intToString level) (JObject values) levelValues
       end)
    TARGET_SKILL_LEVELS [].
Proof.
  unfold buildLevelValues. apply fold_left_pointwise. intros acc level.
  change ((if (List.length (keys (levelValuesAt stat level)) =? 0)%nat
           then acc
           else set (Js.intToString level) (JObject (levelValuesAt stat level)) acc)
          = match levelValuesAt stat level with
            | [] => acc
            | values => set (Js.intToString level) (JObject values) acc
            end).
  now destruct (levelValuesAt stat level).
Qed.

(** The table holds, under the name of each level, the values of that
    level when there are any, and nothing else. *)
Lemma getOwn_buildLevelValues (stat : RawCharacter) (k : string) :
  getOwn k (buildLevelValues stat) =
  if k =? "12" then
    match levelValuesAt stat 12 with
    | [] => None
    | values => Some (JObject values)
    end
  else if k =? "16" then
    match levelValuesAt stat 16 with
    | [] => None
    | values => Some (JObject values)
    end
  else None.
Proof.
  rewrite buildLevelValues_levels. unfold TARGET_SKILL_LEVELS. cbn [fold_left].
  change (Js.intToString 12) with "12". change (Js.intToString 16) with "16".
  rewrite (String.eqb_sym k "12"), (String.eqb_sym k "16").
  destruct (levelValuesAt stat 12) as [|e12 v12];
    destruct (levelValuesAt stat 16) as [|e16 v16];
    cbn -[String.eqb]; try change ("12" =? "16") with false;
    cbn -[String.eqb];
    destruct (String.eqb_spec "12" k) as [<-|H12]; try reflexivity;
    destruct (String.eqb_spec "16" k) as [<-|H16]; reflexivity.
Qed.

Lemma getOwn_table_level (stat : RawCharacter) (level : N) :
  In level TARGET_SKILL_LEVELS ->
  getOwn (Js.intToString level) (buildLevelValues stat) =
  match levelValuesAt stat level with
  | [] => None
  | values => Some (JObject values)
  end.
Proof.
  intros [<-|[<-|[]]]; now rewrite getOwn_buildLevelValues.
Qed.

Lemma growthOf_getOwn (stat : RawCharacter) (key : string) :
  growthOf stat key =
  match getOwn (key ++ "Growth") stat with
  | Some (JNumber growth) => growth
  | _ => 0%float
  end.
Proof.
  unfold growthOf, get. now destruct (getOwn (key ++ "Growth") stat).
Qed.

(** C1, as the code has it. For a stat block with distinct keys and each
    milestone level (12 and 16): every field that holds a number [base] and
    whose name does not end in "Growth" is projected to
    [base + (level - 1) * growth], where [growth] is the number held by the
    field named after it with "Growth" appended, and 0 when that field is
    absent or not a number; the table holds the projected values of the
    level, each divided by 100 when [shouldNormalizeAsPercent] says so and
    as computed otherwise, under the level number written as a string; only
    such fields appear there; a level with no projected value is left out;
    and the table has no other key. *)
Theorem buildLevelValues_projects_each_level (stat : RawCharacter) (level : N) :
  wellFormed stat ->
  In level TARGET_SKILL_LEVELS ->
  (forall key base,
     getOwn key stat = Some (JNumber base) ->
     Js.endsWith "Growth" key = false ->
     let growth :=
       match getOwn (key ++ "Growth") stat with
       | Some (JNumber g) => g
       | _ => 0%float
       end in
     let projected := (base + (Js.intToNumber level - 1) * growth)%float in
     exists values,
       getOwn (Js.intToString level) (buildLevelValues stat)
       = Some (JObject values) /\
       getOwn key values
       = Some (JNumber (if shouldNormalizeAsPercent key (get "format" stat)
                        then (projected / 100)%float else projected))) /\
  (forall values key v,
     getOwn (Js.intToString level) (buildLevelValues stat)
     = Some (JObject values) ->
     getOwn key values = Some v ->
     exists base,
       getOwn key stat = Some (JNumber base) /\
       Js.endsWith "Growth" key = false) /\
  ((forall key v, In (key, v) stat ->
      isNumber v = false \/ Js.endsWith "Growth" key = true) ->
   getOwn (Js.intToString level) (buildLevelValues stat) = None) /\
  (forall k, getOwn k (buildLevelValues stat) <> None ->
     In k (map Js.intToString TARGET_SKILL_LEVELS)).
Proof.
  intros Hwf Hlevel.
  rewrite (getOwn_table_level stat level Hlevel).
  repeat split.
  - intros key base Hkey Hgrowth growth projected.
    pose proof (getOwn_levelValuesAt stat level key Hwf) as Hget.
    rewrite Hkey, Hgrowth in Hget.
    unfold storedLevelValue, rawLevelValue in Hget.
    rewrite growthOf_getOwn in Hget. fold growth projected in Hget.
    destruct (levelValuesAt stat level) as [|e values]; [discriminate|].
    exists (e :: values). now split.
  - intros values key v Htable Hvalue.
    pose proof (getOwn_levelValuesAt stat level key Hwf) as Hget.
    destruct (levelValuesAt stat level) as [|e rest]; [discriminate|].
    injection Htable as <-. rewrite Hvalue in Hget.
    destruct (getOwn key stat) as [[]|]; try discriminate.
    destruct (Js.endsWith "Growth" key); [discriminate|].
    eexists. now split.
  - intros Hnone.
    assert (Hnil : levelValuesAt stat level = []).
    { apply levelValuesAt_nil_iff; [exact Hwf|].
      intros [key v] Hin. unfold projectable. simpl.
      destruct (Hnone key v Hin) as [-> | ->]; [reflexivity|].
      apply andb_false_r. }
    now rewrite Hnil.
  - intros k Hk. rewrite getOwn_buildLevelValues in Hk. simpl.
    destruct (String.eqb_spec k "12") as [E|_]; [left; now rewrite E|].
    destruct (String.eqb_spec k "16") as [E|_]; [right; left; now rewrite E|].
    now contradiction Hk.
Qed.

Lemma wellFormed_damageStat : wellFormed damageStat.
Proof.
  unfold wellFormed, damageStat. simpl.
  repeat constructor; simpl; intuition discriminate.
Qed.

Lemma buildLevelValues_projects_each_level_witness :
  exists values,
    getOwn "16" (buildLevelValues damageStat) = Some (JObject values) /\
    getOwn "damage" values = Some (JNumber 250).
Proof.
  exact (proj1 (buildLevelValues_projects_each_level damageStat 16
                  wellFormed_damageStat (or_intror (or_introl eq_refl)))
           "damage" 100%float eq_refl eq_refl).
Defined.

(** C1, as the claim states it, fails: the field "damageRatio" of
    [damageRatioStat] holds the number 100, its growth is 10, and the
    projections [100 + 11 * 10] and [100 + 15 * 10] are 210 and 250, but
    the table holds 2.1 and 2.5 for it. *)
Lemma buildLevelValues_stores_ratio_divided :
  getOwn "damageRatio" damageRatioStat = Some (JNumber 100) /\
  getOwn "damageRatioGrowth" damageRatioStat = Some (JNumber 10) /\
  (100 + (Js.intToNumber 12 - 1) * 10)%float = 210%float /\
  (100 + (Js.intToNumber 16 - 1) * 10)%float = 250%float /\
  buildLevelValues damageRatioStat
  = [("12", JObject [("damageRatio", JNumber 2.1)]);
     ("16", JObject [("damageRatio", JNumber 2.5)])].
Proof. repeat split. Qed.

(** C6. [shouldNormalizeAsPercent] holds exactly when the format hint is a
    string containing "%" and the lower-cased name is "main", or the
    lower-cased name contains "percentage", or it contains "ratio"; the
    value stored for a projected field is the projection divided by 100
    when it holds and the projection itself when it does not; and for base
    100 and growth 10 under the name "hpPercentage" the stored values at
    levels 12 and 16 are 2.1 and 2.5. *)
Theorem percent_rule_decides_division :
  (forall key format,
     shouldNormalizeAsPercent key format = true <->
     ((exists s, format = JString s /\ Js.includes "%" s = true) /\
      Js.toLowerCase key = "main") \/
     Js.includes "percentage" (Js.toLowerCase key) = true \/
     Js.includes "ratio" (Js.toLowerCase key) = true) /\
  (forall stat level key base,
     wellFormed stat ->
     In level TARGET_SKILL_LEVELS ->
     getOwn key stat = Some (JNumber base) ->
     Js.endsWith "Growth" key = false ->
     let projected := rawLevelValue stat level key base in
     exists values,
       getOwn (Js.intToString level) (buildLevelValues stat)
       = Some (JObject values) /\
       getOwn key values
       = Some (JNumber (if shouldNormalizeAsPercent key (get "format" stat)
                        then (projected / 100)%float else projected))) /\
  buildLevelValues hpPercentageStat
  = [("12", JObject [("hpPercentage", JNumber 2.1)]);
     ("16", JObject [("hpPercentage", JNumber 2.5)])].
Proof.
  split; [|split].
  - intros key format. unfold shouldNormalizeAsPercent.
    destruct (String.eqb_spec (Js.toLowerCase key) "main") as [Hmain|Hmain].
    + destruct format as [| | | |s| |];
        try (cbn [andb Js.includes String.prefix orb]; split;
             [intros H; right; now apply orb_prop in H
             |intros [[(s & Hs & _) _]|H]; [discriminate Hs|now apply orb_true_iff]]).
      cbn [andb]. destruct (Js.includes "%" s) eqn:Hpct.
      * split; [|reflexivity]. intros _. left. split; [|exact Hmain].
        exists s. now split.
      * split.
        -- intros H. right. now apply orb_prop in H.
        -- intros [[(s' & Hs' & Hin) _]|H].
           ++ injection Hs' as <-. congruence.
           ++ now apply orb_true_iff.
    + cbn [andb]. split.
      * intros H. right. now apply orb_prop in H.
      * intros [[_ Heq]|H]; [contradiction|now apply orb_true_iff].
  - intros stat level key base Hwf Hlevel Hkey Hgrowth projected.
    rewrite (getOwn_table_level stat level Hlevel).
    pose proof (getOwn_levelValuesAt stat level key Hwf) as Hget.
    rewrite Hkey, Hgrowth in Hget.
    destruct (levelValuesAt stat level) as [|e values]; [discriminate|].
    exists (e :: values). now split.
  - reflexivity.
Qed.

(** ** The param-stat converter *)

Lemma convertParamStat_unprocessed (stat : RawCharacter) :
  wellFormed stat ->
  hasLevelValues stat = false ->
  convertParamStat stat =
  match buildLevelValues stat with
  | [] => collected keptAsMetadata snd stat
  | table => set "levelValues" (JObject table) (collected keptAsMetadata snd stat)
  end.
Proof.
  intros Hwf Hguard. unfold convertParamStat. rewrite Hguard.
  rewrite (fold_left_pointwise _ (collectStep keptAsMetadata snd))
    by (intros acc [k v]; reflexivity).
  rewrite fold_collect_empty by exact Hwf.
  now destruct (buildLevelValues stat).
Qed.

(** C2, as the code has it. For a block with distinct keys that the guard
    of [convertParamStat] does not pass through: when the level table is
    not empty the converted block holds it under "levelValues"; every other
    key of the converted block is a field of the input that is not a number
    or whose name ends in "Growth", with its input value; a numeric field
    whose name does not end in "Growth" is dropped. *)
Theorem convertParamStat_keeps_metadata_and_growth (stat : RawCharacter) :
  wellFormed stat ->
  hasLevelValues stat = false ->
  forall k,
    getOwn k (convertParamStat stat) =
    if (k =? "levelValues") && (0 <? List.length (buildLevelValues stat))%nat
    then Some (JObject (buildLevelValues stat))
    else
      match getOwn k stat with
      | Some v =>
          if negb (isNumber v) || Js.endsWith "Growth" k then Some v else None
      | None => None
      end.
Proof.
  intros Hwf Hguard k.
  rewrite convertParamStat_unprocessed by assumption.
  pose proof (getOwn_collected keptAsMetadata snd stat k Hwf) as Hmeta.
  unfold keptAsMetadata in Hmeta at 2. simpl in Hmeta.
  destruct (buildLevelValues stat) as [|e table].
  - rewrite andb_false_r. exact Hmeta.
  - cbn [List.length Nat.ltb Nat.leb]. rewrite andb_true_r.
    destruct (String.eqb_spec k "levelValues") as [->|Hne].
    + apply getOwn_set_same.
    + rewrite getOwn_set_other by congruence. exact Hmeta.
Qed.

Lemma convertParamStat_keeps_metadata_and_growth_witness :
  getOwn "damageGrowth" (convertParamStat damageStat) = Some (JNumber 10) /\
  getOwn "damage" (convertParamStat damageStat) = None /\
  getOwn "format" (convertParamStat damageStat) = Some (JString "").
Proof.
  split; [|split].
  - exact (convertParamStat_keeps_metadata_and_growth damageStat
             wellFormed_damageStat eq_refl "damageGrowth").
  - exact (convertParamStat_keeps_metadata_and_growth damageStat
             wellFormed_damageStat eq_refl "damage").
  - exact (convertParamStat_keeps_metadata_and_growth damageStat
             wellFormed_damageStat eq_refl "format").
Defined.

(** C2, as the claim states it, fails: the block [damageStat] has no level
    table and holds the number 10 under "damageGrowth", and the converted
    block still holds it. *)
Lemma convertParamStat_keeps_numeric_growth_field :
  hasLevelValues damageStat = false /\
  getOwn "damageGrowth" damageStat = Some (JNumber 10) /\
  getOwn "damageGrowth" (convertParamStat damageStat) = Some (JNumber 10).
Proof. repeat split. Qed.

(** C4, as the code has it. A block whose "levelValues" field holds an
    object or an array is returned as it is. *)
Theorem convertParamStat_passes_processed_block (stat : RawCharacter) :
  (exists entries, get "levelValues" stat = JObject entries) \/
  (exists items, get "levelValues" stat = JArray items) ->
  convertParamStat stat = stat.
Proof.
  intros [(entries & H)|(items & H)];
    unfold convertParamStat, hasLevelValues; now rewrite H.
Qed.

Lemma convertParamStat_passes_processed_block_witness :
  convertParamStat processedStat = processedStat.
Proof.
  apply convertParamStat_passes_processed_block.
  left. eexists. reflexivity.
Defined.

(** C4, as the claim states it, fails: [nullTableStat] contains the key
    "levelValues" (holding [null]) and is not returned as it is: its
    "damage" field is projected into a new table that replaces [null]. *)
Lemma convertParamStat_recomputes_null_table :
  getOwn "levelValues" nullTableStat = Some JNull /\
  getOwn "damage" nullTableStat = Some (JNumber 100) /\
  convertParamStat nullTableStat
  = [("levelValues",
      JObject [("12", JObject [("damage", JNumber 210)]);
               ("16", JObject [("damage", JNumber 250)])]);
     ("damageGrowth", JNumber 10)].
Proof. repeat split. Qed.

(** ** Strings *)

Lemma append_nil_r (s : string) : s ++ "" = s.
Proof. induction s as [|c r IH]; simpl; [reflexivity|now rewrite IH]. Qed.

Lemma append_assoc (a b c : string) : (a ++ b) ++ c = a ++ b ++ c.
Proof. induction a as [|x r IH]; simpl; [reflexivity|now rewrite IH]. Qed.

Lemma append_snoc (a : string) (c : ascii) (b : string) :
  (a ++ String c "") ++ b = a ++ String c b.
Proof. now rewrite append_assoc. Qed.

Lemma allChars_app p (a b : string) :
  allChars p (a ++ b) = allChars p a && allChars p b.
Proof.
  induction a as [|x r IH]; simpl; [reflexivity|].
  now rewrite IH, andb_assoc.
Qed.

Lemma allChars_weaken (p q : ascii -> bool) (s : string) :
  (forall c, p c = true -> q c = true) ->
  allChars p s = true -> allChars q s = true.
Proof.
  intros Hpq. induction s as [|c r IH]; simpl; [reflexivity|].
  intros H. apply andb_prop in H as [Hc Hr].
  now rewrite (Hpq c Hc), IH.
Qed.

(** ** The tag stripper *)

Lemma stripScan_text (pre s : string) :
  allChars notLt pre = true ->
  stripScan None (pre ++ s) = pre ++ stripScan None s.
Proof.
  induction pre as [|c r IH]; simpl; [reflexivity|].
  intros H. apply andb_prop in H as [Hc Hr].
  unfold notLt in Hc. apply negb_true_iff in Hc. rewrite Hc.
  now rewrite IH.
Qed.

Lemma stripScan_close (content : string) : forall acc post,
  allChars notGt content = true ->
  stripScan (Some acc) (content ++ String ">" post) =
  match acc ++ content with
  | EmptyString => "<>" ++ stripScan None post
  | tag => replaceTag tag ++ stripScan None post
  end.
Proof.
  induction content as [|c r IH]; intros acc post H.
  - rewrite append_nil_r. now destruct acc.
  - simpl in H. apply andb_prop in H as [Hc Hr].
    unfold notGt in Hc. apply negb_true_iff in Hc.
    simpl. rewrite Hc. rewrite IH by exact Hr.
    now rewrite append_snoc.
Qed.

Lemma stripScan_unclosed (s : string) : forall acc,
  allChars notGt s = true ->
  stripScan (Some acc) s = "<" ++ acc ++ s.
Proof.
  induction s as [|c r IH]; intros acc H.
  - now rewrite append_nil_r.
  - simpl in H. apply andb_prop in H as [Hc Hr].
    unfold notGt in Hc. apply negb_true_iff in Hc.
    simpl. rewrite Hc. rewrite IH by exact Hr.
    simpl. now rewrite append_snoc.
Qed.

(** *** The matcher on a run of one class *)

Lemma append_snoc_nonempty (a : string) (c : ascii) :
  (a ++ String c "" =? "") = false.
Proof. now destruct a. Qed.

(** [plusFrom] finds nothing where the class does not start. *)
Lemma plusFrom_stops p taken s k :
  match s with
  | EmptyString => true
  | String c _ => negb (p c)
  end = true ->
  plusFrom p taken s k = None.
Proof.
  destruct s as [|c r]; [reflexivity|]. simpl.
  intros H. apply negb_true_iff in H. now rewrite H.
Qed.

(** A run followed by something the continuation accepts is taken whole. *)
Lemma plusFrom_greedy p (content : string) : forall taken rest k found,
  allChars p content = true ->
  content <> "" ->
  match rest with
  | EmptyString => true
  | String c _ => negb (p c)
  end = true ->
  k (taken ++ content) rest = Some found ->
  plusFrom p taken (content ++ rest) k = Some found.
Proof.
  induction content as [|c r IH]; intros taken rest k found Hall Hne Hstop Hk;
    [contradiction|].
  simpl in Hall. apply andb_prop in Hall as [Hc Hr].
  simpl. rewrite Hc.
  destruct r as [|c' r'].
  - simpl. rewrite (plusFrom_stops p _ rest k Hstop). exact Hk.
  - rewrite (IH (taken ++ String c "") rest k found Hr); try easy.
    now rewrite append_snoc.
Qed.

(** A continuation that refuses whatever starts in the class, or is empty,
    is refused all along a run of the class. *)
Lemma plusFrom_refused p (s : string) : forall taken k,
  allChars p s = true ->
  (forall t rest, allChars p rest = true -> k t rest = None) ->
  plusFrom p taken s k = None.
Proof.
  induction s as [|c r IH]; intros taken k Hall Hk; [reflexivity|].
  simpl in Hall. apply andb_prop in Hall as [Hc Hr].
  simpl. rewrite Hc, (IH _ k Hr Hk). now apply Hk.
Qed.

(** *** [stripHtmlTags] is its scanner *)

Lemma exec_tagRegex (atStart : bool) (s : string) :
  exec tagRegex atStart s =
  match s with
  | EmptyString => None
  | String c r =>
      if isLt c then
        plusFrom notGt "" r
          (fun t rest =>
             match rest with
             | EmptyString => None
             | String d rest' =>
                 if isGt d
                 then Some (mkFound (String c "" ++ t ++ String d "") (Some t) rest')
                 else None
             end)
      else None
  end.
Proof.
  destruct s as [|c r]; [reflexivity|].
  unfold exec, tagRegex. cbn [matchRe]. now destruct (isLt c).
Qed.

(** A string is a run free of ">", then nothing or a ">" and the rest. *)
Lemma split_at_gt (s : string) :
  exists content tail,
    s = content ++ tail /\ allChars notGt content = true /\
    (tail = "" \/ exists post, tail = String ">" post).
Proof.
  induction s as [|c r (content & tail & -> & Hcontent & Htail)].
  - exists "", "". repeat split. now left.
  - destruct (isGt c) eqn:Hc.
    + exists "", (String c (content ++ tail)). repeat split.
      right. exists (content ++ tail).
      unfold isGt in Hc. apply Ascii.eqb_eq in Hc. now subst.
    + exists (String c content), tail. simpl.
      unfold notGt at 1. now rewrite Hc, Hcontent.
Qed.

Lemma stripScan_without_gt (s : string) :
  allChars notGt s = true -> stripScan None s = s.
Proof.
  induction s as [|c r IH]; [reflexivity|]. simpl.
  intros H. apply andb_prop in H as [Hc Hr].
  destruct (isLt c) eqn:Hlt.
  - rewrite stripScan_unclosed by exact Hr.
    unfold isLt in Hlt. apply Ascii.eqb_eq in Hlt. now subst.
  - now rewrite IH.
Qed.

Lemma length_app (a b : string) :
  String.length (a ++ b) = String.length a + String.length b.
Proof. induction a as [|c r IH]; simpl; [reflexivity|now rewrite IH]. Qed.

Lemma replaceFrom_tagRegex (fuel : nat) : forall atStart s,
  String.length s < fuel ->
  replaceFrom tagRegex keepIconMap fuel atStart s = stripScan None s.
Proof.
  induction fuel as [|fuel IH]; intros atStart s Hfuel; [lia|].
  cbn [replaceFrom]. rewrite exec_tagRegex.
  destruct s as [|c r]; [reflexivity|].
  simpl in Hfuel.
  destruct (isLt c) eqn:Hlt; [|simpl; rewrite Hlt, IH by lia; reflexivity].
  assert (Hc : c = "<"%char) by (now apply Ascii.eqb_eq). subst c.
  destruct (split_at_gt r) as (content & tail & -> & Hcontent & [->|(post & ->)]).
  - (* no closing bracket *)
    rewrite append_nil_r in *.
    rewrite plusFrom_refused; [|exact Hcontent|].
    + rewrite IH by lia. rewrite stripScan_without_gt by exact Hcontent.
      simpl. now rewrite stripScan_unclosed.
    + intros t [|d rest'] Hrest; [reflexivity|].
      simpl in Hrest. apply andb_prop in Hrest as [Hd _].
      unfold notGt in Hd. apply negb_true_iff in Hd. now rewrite Hd.
  - destruct content as [|c0 content'].
    + (* the brackets hold nothing *)
      simpl in Hfuel |- *. rewrite IH by (simpl; lia). reflexivity.
    + (* a tag *)
      erewrite plusFrom_greedy; [|exact Hcontent|discriminate|reflexivity|reflexivity].
      cbn [text group1 remainder keepIconMap]. cbn [append String.eqb].
      rewrite length_app in Hfuel. simpl in Hfuel.
      rewrite IH by lia. symmetry.
      exact (stripScan_close (String c0 content') "" post Hcontent).
Qed.

Lemma stripHtmlTags_scan (s : string) :
  stripHtmlTags s = stripScan None s.
Proof.
  unfold stripHtmlTags, replaceAll. apply replaceFrom_tagRegex. lia.
Qed.

Lemma stripHtmlTags_tag (content post : string) :
  content <> "" ->
  allChars notGt content = true ->
  stripHtmlTags ("<" ++ content ++ ">" ++ post) =
  replaceTag content ++ stripHtmlTags post.
Proof.
  intros Hne H. rewrite !stripHtmlTags_scan.
  change (stripScan None ("<" ++ content ++ ">" ++ post))
    with (stripScan (Some "") (content ++ String ">" post)).
  rewrite stripScan_close by exact H. simpl.
  destruct content; [contradiction|reflexivity].
Qed.

Lemma stripHtmlTags_empty_brackets (post : string) :
  stripHtmlTags ("<>" ++ post) = "<>" ++ stripHtmlTags post.
Proof. now rewrite !stripHtmlTags_scan. Qed.

Lemma replaceTag_kept_or_dropped (content : string) :
  replaceTag content = "<" ++ content ++ ">" \/ replaceTag content = "".
Proof. unfold replaceTag. destruct (Js.startsWith _ _); tauto. Qed.

Lemma stripScan_idempotent (s : string) : forall tag,
  match tag with
  | Some acc => allChars notGt acc = true
  | None => True
  end ->
  stripScan None (stripScan tag s) = stripScan tag s.
Proof.
  induction s as [|c r IH]; intros [acc|] Hacc.
  - simpl. change (stripScan None ("<" ++ acc)) with (stripScan (Some "") acc).
    now rewrite stripScan_unclosed.
  - reflexivity.
  - simpl. destruct (isGt c) eqn:Hc.
    + destruct acc as [|a acc'].
      * change ("<>" ++ stripScan None (stripScan None r)
                = "<>" ++ stripScan None r).
        now rewrite IH.
      * destruct (replaceTag_kept_or_dropped (String a acc')) as [Hkept|Hdrop].
        -- rewrite Hkept. rewrite !append_assoc.
           pose proof (stripHtmlTags_tag (String a acc') (stripScan None r))
             as Htag.
           rewrite !stripHtmlTags_scan in Htag.
           rewrite Htag by (discriminate || exact Hacc).
           rewrite Hkept, IH by exact I. now rewrite !append_assoc.
        -- rewrite Hdrop. simpl. now apply IH.
    + apply IH. rewrite allChars_app, Hacc. simpl.
      unfold notGt. now rewrite Hc.
  - simpl. destruct (isLt c) eqn:Hc.
    + now apply IH.
    + simpl. rewrite Hc. now rewrite IH.
Qed.

Lemma stripHtmlTags_idempotent (s : string) :
  stripHtmlTags (stripHtmlTags s) = stripHtmlTags s.
Proof. rewrite !stripHtmlTags_scan. now apply stripScan_idempotent. Qed.

(** ** The output namers *)(** ** The output namers *)

Lemma length_zero_eqb (s : string) :
  (String.length s =? 0)%nat = (s =? "").
Proof. now destruct s. Qed.

Lemma getIndexFileName_spec (key : string) (indexEntry : RawCharacter) :
  getIndexFileName key indexEntry =
  match getString (nullish (get "CodeName" indexEntry) (get "code" indexEntry)) with
  | None => key
  | Some code => if slugify code =? "" then key else slugify code
  end.
Proof.
  unfold getIndexFileName.
  destruct (getString _) as [code|]; [|reflexivity].
  rewrite length_zero_eqb.
  destruct (String.eqb_spec code "") as [->|_]; reflexivity.
Qed.

(** C3, as the code has it. [slugify] maps "Alice: The Good!" to
    "alice-thegood" (white space is deleted before the hyphens are put in)
    and maps "   " to the empty string; [getIndexFileName] returns the raw
    key when the code name is absent and when its slug is empty, and the
    slug otherwise. *)
Theorem slugify_examples_and_fallback :
  slugify "Alice: The Good!" = "alice-thegood" /\
  slugify "   " = "" /\
  forall key indexEntry,
    getIndexFileName key indexEntry =
    match getString (nullish (get "CodeName" indexEntry) (get "code" indexEntry)) with
    | None => key
    | Some code => if slugify code =? "" then key else slugify code
    end.
Proof.
  split; [reflexivity|]. split; [reflexivity|].
  exact getIndexFileName_spec.
Qed.

(** C3, as the claim states it, fails: the slug of "Alice: The Good!" is
    "alice-thegood", which is not "alice-the-good". *)
Lemma slugify_alice_drops_inner_space :
  slugify "Alice: The Good!" = "alice-thegood" /\
  (slugify "Alice: The Good!" =? "alice-the-good") = false.
Proof. split; reflexivity. Qed.

(** C7. The name derived from the index entry and the name derived from
    the detail record are the same whenever the code name the index entry
    carries ([CodeName], or [code] when [CodeName] is absent or [null]) is
    the value of [CodeName] in the detail record; this covers the absent
    code name and the empty slug, where both are the raw key. *)
Theorem getIndexFileName_agrees_with_getFileName
    (key : string) (indexEntry detail : RawCharacter) :
  nullish (get "CodeName" indexEntry) (get "code" indexEntry)
  = get "CodeName" detail ->
  getIndexFileName key indexEntry = DetailScript.getFileName key detail.
Proof.
  intros Hsame. unfold getIndexFileName, DetailScript.getFileName.
  rewrite Hsame. reflexivity.
Qed.

Lemma getIndexFileName_agrees_with_getFileName_witness :
  getIndexFileName "1041" codeNamedEntry = "soldier11" /\
  getIndexFileName "1041" codeNamedEntry
  = DetailScript.getFileName "1041" codeNamedDetail.
Proof.
  split; [reflexivity|].
  exact (getIndexFileName_agrees_with_getFileName
           "1041" codeNamedEntry codeNamedDetail eq_refl).
Defined.

(** C10. The keys "Foo_Bar" and "FooBar" are distinct and both rewrite to
    "fooBar"; normalising an object that holds the two yields an object
    with the single key "fooBar", whose value is that of the entry that
    comes later in the input; and normalising an object never adds keys. *)
Theorem normalizeKeys_merges_colliding_keys :
  "Foo_Bar" <> "FooBar" /\
  toLowerCamelCase "Foo_Bar" = "fooBar" /\
  toLowerCamelCase "FooBar" = "fooBar" /\
  normalizeKeys (JObject [("Foo_Bar", JNumber 1); ("FooBar", JNumber 2)])
  = JObject [("fooBar", JNumber 2)] /\
  normalizeKeys (JObject [("FooBar", JNumber 2); ("Foo_Bar", JNumber 1)])
  = JObject [("fooBar", JNumber 1)] /\
  (forall entries normalized,
     normalizeKeys (JObject entries) = JObject normalized ->
     List.length normalized <= List.length entries).
Proof.
  split; [discriminate|]. repeat (split; [reflexivity|]).
  intros entries normalized H. cbn [normalizeKeys] in H. injection H as <-.
  assert (Hset : forall k v (o : RawCharacter),
             List.length (set k v o) <= S (List.length o)).
  { intros k v o. induction o as [|[k' v'] o' IHo]; simpl; [lia|].
    destruct (k' =? k); simpl; lia. }
  assert (Hgen : forall (es acc : RawCharacter),
             List.length (fold_left normalizeEntry es acc)
             <= List.length acc + List.length es).
  { induction es as [|[k v] r IH]; intros acc; simpl; [lia|].
    etransitivity; [apply IH|].
    specialize (Hset (toLowerCamelCase k) (normalizeKeys v) acc). lia. }
  apply (Hgen entries []).
Qed.

(** ** The key rewriter *)

Ltac by_ascii_cases c :=
  destruct c as [[] [] [] [] [] [] [] []]; vm_compute; intuition congruence.

Lemma toUpperChar_alnum (c : ascii) :
  Js.isAlnum c = true -> Js.isAlnum (Js.toUpperChar c) = true.
Proof. by_ascii_cases c. Qed.

Lemma toUpperChar_notAlnum (c : ascii) :
  notAlnum c = true -> Js.toUpperChar c = c.
Proof. by_ascii_cases c. Qed.

Lemma toLowerChar_upper (c : ascii) :
  Js.isUpper c = true ->
  Js.isAlnum (Js.toLowerChar c) = true /\ Js.isUpper (Js.toLowerChar c) = false.
Proof. by_ascii_cases c. Qed.

Lemma lineTerminator_notAlnum (c : ascii) :
  Js.isLineTerminator c = true -> notAlnum c = true.
Proof. by_ascii_cases c. Qed.

Lemma notAlnum_not_upper (c : ascii) :
  notAlnum c = true -> Js.isUpper c = false.
Proof. by_ascii_cases c. Qed.

Lemma lastCapture_none (run : string) :
  lastCapture run = None -> allChars Js.isLineTerminator run = true.
Proof.
  induction run as [|c r IH]; simpl; [reflexivity|].
  destruct (lastCapture r); [discriminate|].
  destruct (Js.isLineTerminator c); [|discriminate].
  intros _. now apply IH.
Qed.

Lemma lastCapture_some (run : string) (chr : ascii) (rest : string) :
  allChars notAlnum run = true ->
  lastCapture run = Some (chr, rest) ->
  notAlnum chr = true /\ allChars Js.isLineTerminator rest = true.
Proof.
  revert chr rest.
  induction run as [|c r IH]; simpl; intros chr rest Hrun H; [discriminate|].
  apply andb_prop in Hrun as [Hc Hr].
  destruct (lastCapture r) as [[chr' rest']|] eqn:E.
  - injection H as <- <-. now apply IH.
  - destruct (Js.isLineTerminator c); [discriminate|].
    injection H as <- <-. split; [exact Hc|].
    now apply lastCapture_none.
Qed.

Lemma lastCapture_terminators (run : string) :
  allChars Js.isLineTerminator run = true -> lastCapture run = None.
Proof.
  induction run as [|c r IH]; simpl; [reflexivity|].
  intros H. apply andb_prop in H as [Hc Hr].
  now rewrite IH, Hc.
Qed.

Lemma closeRun_settled (first : ascii) (more : string) :
  notAlnum first = true ->
  allChars notAlnum more = true ->
  settledTail (closeRun first more) = true.
Proof.
  intros Hfirst Hmore. unfold closeRun.
  destruct (lastCapture more) as [[chr rest]|] eqn:E.
  - destruct (lastCapture_some more chr rest Hmore E) as [Hchr Hrest].
    rewrite (toUpperChar_notAlnum chr Hchr). simpl. now rewrite Hchr, Hrest.
  - simpl. rewrite Hfirst. now apply lastCapture_none.
Qed.

(** What [camelScan] returns: alphanumeric characters, then a settled tail. *)
Lemma camelScan_form (s : string) : forall st,
  match st with
  | Plain => True
  | Run first more => notAlnum first = true /\ allChars notAlnum more = true
  end ->
  exists a t,
    camelScan st s = a ++ t /\
    allChars Js.isAlnum a = true /\ settledTail t = true.
Proof.
  induction s as [|c r IH]; intros [|first more] Hst; simpl.
  - exists "", "". now repeat split.
  - destruct Hst as [Hfirst Hmore].
    exists "", (closeRun first more). repeat split.
    now apply closeRun_settled.
  - destruct (Js.isAlnum c) eqn:Hc.
    + destruct (IH Plain I) as (a & t & -> & Ha & Ht).
      exists (String c a), t. simpl. now rewrite Hc, Ha.
    + apply IH. unfold notAlnum. now rewrite Hc.
  - destruct Hst as [Hfirst Hmore]. destruct (Js.isAlnum c) eqn:Hc.
    + destruct (IH Plain I) as (a & t & -> & Ha & Ht).
      exists (String (Js.toUpperChar c) a), t. simpl.
      now rewrite (toUpperChar_alnum c Hc), Ha.
    + apply IH. split; [exact Hfirst|].
      rewrite allChars_app, Hmore. simpl. unfold notAlnum. now rewrite Hc.
Qed.

Lemma camelScan_run_of_notAlnum (run : string) : forall first more,
  allChars notAlnum run = true ->
  camelScan (Run first more) run = closeRun first (more ++ run).
Proof.
  induction run as [|c r IH]; intros first more H.
  - now rewrite append_nil_r.
  - simpl in H. apply andb_prop in H as [Hc Hr].
    unfold notAlnum in Hc. apply negb_true_iff in Hc.
    simpl. rewrite Hc, IH by exact Hr. now rewrite append_snoc.
Qed.

Lemma camelScan_settled (t : string) :
  settledTail t = true -> camelScan Plain t = t.
Proof.
  destruct t as [|x r]; [reflexivity|]. simpl.
  intros H. apply andb_prop in H as [Hx Hr].
  unfold notAlnum in Hx. apply negb_true_iff in Hx. rewrite Hx.
  rewrite camelScan_run_of_notAlnum
    by (eapply allChars_weaken; [apply lineTerminator_notAlnum|exact Hr]).
  unfold closeRun. simpl. now rewrite lastCapture_terminators.
Qed.

Lemma camelScan_alnum_prefix (a t : string) :
  allChars Js.isAlnum a = true ->
  camelScan Plain (a ++ t) = a ++ camelScan Plain t.
Proof.
  induction a as [|c r IH]; simpl; [reflexivity|].
  intros H. apply andb_prop in H as [Hc Hr].
  now rewrite Hc, IH.
Qed.

Lemma camelScan_fixes_form (a t : string) :
  allChars Js.isAlnum a = true -> settledTail t = true ->
  camelScan Plain (a ++ t) = a ++ t.
Proof.
  intros Ha Ht. now rewrite camelScan_alnum_prefix, camelScan_settled.
Qed.

(** *** [toLowerCamelCase] is its scanner *)

Lemma exec_separatorRegex (atStart : bool) (s : string) :
  exec separatorRegex atStart s = plusFrom notAlnum "" s captureDot.
Proof. reflexivity. Qed.

Lemma alnum_dot (c : ascii) : Js.isAlnum c = true -> dot c = true.
Proof. by_ascii_cases c. Qed.

Lemma dot_lineTerminator (c : ascii) : dot c = negb (Js.isLineTerminator c).
Proof. reflexivity. Qed.

(** Between a first character and the end of the input, a run gives back
    the last character [captureDot] can take. *)
Lemma plusFrom_capture_last (run : string) : forall taken x,
  notAlnum x = true ->
  allChars notAlnum run = true ->
  match lastCapture run with
  | Some (chr, rest) =>
      exists t,
        plusFrom notAlnum taken (String x run) captureDot
        = Some (mkFound t (Some (String chr "")) rest) /\
        (t =? "") = false
  | None => plusFrom notAlnum taken (String x run) captureDot = None
  end.
Proof.
  induction run as [|y r IH]; intros taken x Hx Hrun.
  - simpl. now rewrite Hx.
  - simpl in Hrun. apply andb_prop in Hrun as [Hy Hr].
    specialize (IH (taken ++ String x "") y Hy Hr).
    cbn [lastCapture]. cbn [plusFrom]. rewrite Hx.
    cbn [plusFrom] in IH. rewrite Hy in IH.
    destruct (lastCapture r) as [[chr rest]|].
    + destruct IH as (t & Hfound & Ht). rewrite Hy, Hfound. now exists t.
    + rewrite Hy, IH. unfold captureDot. rewrite dot_lineTerminator.
      destruct (Js.isLineTerminator y); [reflexivity|]. simpl.
      eexists. split; [reflexivity|apply append_snoc_nonempty].
Qed.

Lemma split_run (s : string) :
  exists run tail,
    s = run ++ tail /\ allChars notAlnum run = true /\
    (tail = "" \/ exists d t, tail = String d t /\ Js.isAlnum d = true).
Proof.
  induction s as [|c r (run & tail & -> & Hrun & Htail)].
  - exists "", "". repeat split. now left.
  - destruct (Js.isAlnum c) eqn:Hc.
    + exists "", (String c (run ++ tail)). repeat split.
      right. now exists c, (run ++ tail).
    + exists (String c run), tail. simpl.
      unfold notAlnum at 1. now rewrite Hc, Hrun.
Qed.

Lemma camelScan_run_prefix (run : string) : forall first more rest,
  allChars notAlnum run = true ->
  camelScan (Run first more) (run ++ rest)
  = camelScan (Run first (more ++ run)) rest.
Proof.
  induction run as [|c r IH]; intros first more rest H.
  - now rewrite append_nil_r.
  - simpl in H. apply andb_prop in H as [Hc Hr].
    unfold notAlnum in Hc. apply negb_true_iff in Hc.
    simpl. rewrite Hc, IH by exact Hr. now rewrite append_snoc.
Qed.

Lemma lastCapture_length (run : string) (chr : ascii) (rest : string) :
  lastCapture run = Some (chr, rest) ->
  String.length rest < String.length run.
Proof.
  revert chr rest. induction run as [|c r IH]; simpl; intros chr rest H;
    [discriminate|].
  destruct (lastCapture r) as [[chr' rest']|].
  - injection H as <- <-. specialize (IH chr' rest' eq_refl). lia.
  - destruct (Js.isLineTerminator c); [discriminate|].
    injection H as <- <-. lia.
Qed.

Lemma terminators_settled (s : string) :
  allChars Js.isLineTerminator s = true -> settledTail s = true.
Proof.
  destruct s as [|c r]; [reflexivity|]. simpl.
  intros H. apply andb_prop in H as [Hc Hr].
  now rewrite (lineTerminator_notAlnum c Hc), Hr.
Qed.

Lemma replaceFrom_separatorRegex (fuel : nat) : forall atStart s,
  String.length s < fuel ->
  replaceFrom separatorRegex upperCapture fuel atStart s = camelScan Plain s.
Proof.
  induction fuel as [|fuel IH]; intros atStart s Hfuel; [lia|].
  cbn [replaceFrom]. rewrite exec_separatorRegex.
  destruct s as [|c r]; [reflexivity|].
  simpl in Hfuel.
  destruct (Js.isAlnum c) eqn:Hc.
  - rewrite plusFrom_stops by (unfold notAlnum; now rewrite Hc).
    simpl. now rewrite Hc, IH by lia.
  - assert (Hx : notAlnum c = true) by (unfold notAlnum; now rewrite Hc).
    destruct (split_run r) as (run & tail & -> & Hrun & [->|(d & t & -> & Hd)]).
    + (* the run reaches the end of the input *)
      rewrite append_nil_r in *.
      pose proof (plusFrom_capture_last run "" c Hx Hrun) as Hlast.
      cbn [camelScan]. rewrite Hc.
      rewrite camelScan_run_of_notAlnum by exact Hrun.
      unfold closeRun. cbn [append].
      destruct (lastCapture run) as [[chr rest]|] eqn:E.
      * destruct Hlast as (t0 & -> & Ht0).
        cbn [text group1 remainder upperCapture]. rewrite Ht0.
        pose proof (lastCapture_length run chr rest E) as Hlen.
        destruct (lastCapture_some run chr rest Hrun E) as [_ Hrest].
        rewrite IH by lia.
        now rewrite camelScan_settled by (now apply terminators_settled).
      * rewrite Hlast, IH by lia.
        now rewrite camelScan_settled
          by (apply terminators_settled; now apply lastCapture_none).
    + (* the run is followed by an alphanumeric character *)
      rewrite length_app in Hfuel. simpl in Hfuel.
      change (String c (run ++ String d t)) with (String c run ++ String d t).
      erewrite plusFrom_greedy;
        [ | simpl; now rewrite Hx, Hrun | discriminate
          | unfold notAlnum; simpl; now rewrite Hd
          | unfold captureDot; rewrite (alnum_dot d Hd); reflexivity ].
      cbn [text group1 remainder upperCapture].
      rewrite append_snoc_nonempty, IH by lia.
      change (String c run ++ String d t) with (String c (run ++ String d t)).
      cbn [camelScan]. rewrite Hc.
      rewrite camelScan_run_prefix by exact Hrun.
      cbn [camelScan append]. now rewrite Hd.
Qed.

Lemma replaceFirstFrom_initialRegex_later (s : string) :
  replaceFirstFrom initialRegex lowerMatch false s = s.
Proof. induction s as [|c r IH]; simpl; [reflexivity|now rewrite IH]. Qed.

Lemma replaceFirst_initialRegex (s : string) :
  replaceFirst initialRegex lowerMatch s = lowerFirst s.
Proof.
  destruct s as [|c r]; [reflexivity|].
  unfold replaceFirst, lowerFirst. cbn [replaceFirstFrom].
  unfold exec, initialRegex. cbn [matchRe].
  destruct (Js.isUpper c); [reflexivity|].
  now rewrite replaceFirstFrom_initialRegex_later.
Qed.

Lemma toLowerCamelCase_scan (key : string) :
  toLowerCamelCase key = lowerFirst (camelScan Plain key).
Proof.
  unfold toLowerCamelCase. rewrite replaceFirst_initialRegex.
  unfold replaceAll. now rewrite replaceFrom_separatorRegex by lia.
Qed.

Lemma toLowerCamelCase_idempotent (key : string) :
  toLowerCamelCase (toLowerCamelCase key) = toLowerCamelCase key.
Proof.
  rewrite !toLowerCamelCase_scan.
  destruct (camelScan_form key Plain I) as (a & t & -> & Ha & Ht).
  destruct a as [|c a'].
  - simpl. destruct t as [|x r]; [reflexivity|].
    simpl in Ht. apply andb_prop in Ht as [Hx Hr].
    unfold lowerFirst at 2. rewrite (notAlnum_not_upper x Hx).
    rewrite camelScan_settled by (simpl; now rewrite Hx, Hr).
    simpl. now rewrite (notAlnum_not_upper x Hx).
  - simpl in Ha. apply andb_prop in Ha as [Hc Ha'].
    simpl. destruct (Js.isUpper c) eqn:Hup.
    + destruct (toLowerChar_upper c Hup) as [Hlow Hnot].
      change (String (Js.toLowerChar c) (a' ++ t))
        with (String (Js.toLowerChar c) a' ++ t).
      rewrite camelScan_fixes_form by (simpl; now rewrite ?Hlow, ?Ha').
      simpl. now rewrite Hnot.
    + change (String c (a' ++ t)) with (String c a' ++ t).
      rewrite camelScan_fixes_form by (simpl; now rewrite ?Hc, ?Ha').
      simpl. now rewrite Hup.
Qed.

(** ** The key normaliser *)

Lemma normalizeKeys_object (entries : RawCharacter) :
  normalizeKeys (JObject entries) = JObject (fold_left normalizeEntry entries []).
Proof. reflexivity. Qed.

Lemma Forall_set (Q : string * JsonValue -> Prop) k v (o : RawCharacter) :
  Forall Q o -> Q (k, v) -> Forall Q (set k v o).
Proof.
  intros Ho Hkv. induction o as [|[k' v'] r IH]; simpl.
  - now constructor.
  - inversion Ho as [|? ? Hhd Htl]; subst.
    destruct (String.eqb_spec k' k) as [->|_]; constructor; auto.
Qed.

Lemma fold_normalizeEntry_invariant (es : RawCharacter) : forall acc,
  Forall (fun kv => normalizeKeys (normalizeKeys (snd kv)) = normalizeKeys (snd kv)) es ->
  wellFormed acc -> Forall normalEntry acc ->
  wellFormed (fold_left normalizeEntry es acc) /\
  Forall normalEntry (fold_left normalizeEntry es acc).
Proof.
  induction es as [|[k v] r IH]; intros acc Hes Hwf Hacc; simpl; [now split|].
  inversion Hes as [|? ? Hkv Hr]; subst.
  apply IH; [exact Hr| |].
  - now apply wellFormed_set.
  - apply Forall_set; [exact Hacc|].
    split; simpl; [apply toLowerCamelCase_idempotent|exact Hkv].
Qed.

Lemma fold_left_pointwise_in {A B} (f g : A -> B -> A) (l : list B) :
  (forall a b, In b l -> f a b = g a b) ->
  forall a, fold_left f l a = fold_left g l a.
Proof.
  induction l as [|b r IH]; intros Hfg a; simpl; [reflexivity|].
  rewrite Hfg by now left.
  apply IH. intros a' b' Hin. apply Hfg. now right.
Qed.

Lemma collected_all (o : RawCharacter) :
  collected (fun _ => true) snd o = o.
Proof.
  unfold collected. induction o as [|[k v] r IH]; simpl; [reflexivity|].
  now rewrite IH.
Qed.

Lemma fold_normalizeEntry_fixed (o : RawCharacter) :
  wellFormed o -> Forall normalEntry o ->
  fold_left normalizeEntry o [] = o.
Proof.
  intros Hwf Hnormal.
  rewrite (fold_left_pointwise_in _ (collectStep (fun _ => true) snd)).
  - rewrite fold_collect_empty by exact Hwf. apply collected_all.
  - intros acc [k v] Hin. rewrite Forall_forall in Hnormal.
    destruct (Hnormal (k, v) Hin) as [Hkey Hvalue]. simpl in Hkey, Hvalue.
    unfold normalizeEntry, collectStep. simpl. now rewrite Hkey, Hvalue.
Qed.

(** In the embedding a second pass changes nothing.  The case conversion
    of the embedding is that of JavaScript on ASCII keys only, and the
    property is stated for them below. *)
Lemma normalizeKeys_twice (value : JsonValue) :
  normalizeKeys (normalizeKeys value) = normalizeKeys value.
Proof.
  induction value as [| | b | n | s | items IH | entries IH]
    using JsonValue_nested_ind; try reflexivity.
  - cbn [normalizeKeys]. f_equal. apply stripHtmlTags_idempotent.
  - cbn [normalizeKeys]. f_equal. rewrite map_map.
    apply map_ext_in. intros v Hin. rewrite Forall_forall in IH. now apply IH.
  - rewrite normalizeKeys_object.
    destruct (fold_normalizeEntry_invariant entries [] IH) as [Hwf Hnormal];
      [constructor|constructor|].
    rewrite normalizeKeys_object. f_equal.
    now apply fold_normalizeEntry_fixed.
Qed.

(** ** Instances on the sample blocks *)

Lemma wellFormed_mixedStats : wellFormed mixedStats.
Proof.
  unfold wellFormed, mixedStats. simpl.
  repeat constructor; simpl; intuition discriminate.
Qed.

Lemma wellFormed_hpPercentageStat : wellFormed hpPercentageStat.
Proof.
  unfold wellFormed, hpPercentageStat. simpl.
  repeat constructor; simpl; intuition discriminate.
Qed.

Lemma simplifyStats_keeps_the_numbers_of_ordinary_keys_witness :
  wellFormed mixedStats /\
  exists out,
    simplifyStats (Some mixedStats) = Some out /\
    getOwn "HP" out = Some (JNumber 100).
Proof.
  split; [exact wellFormed_mixedStats|].
  assert (Hne : "HP" <> "__proto__") by discriminate.
  exact (proj1 (simplifyStats_keeps_the_numbers_of_ordinary_keys mixedStats
                  wellFormed_mixedStats)
           "HP" 100%float Hne eq_refl).
Defined.

Lemma percent_rule_decides_division_witness :
  exists values,
    getOwn "12" (buildLevelValues hpPercentageStat) = Some (JObject values) /\
    getOwn "hpPercentage" values = Some (JNumber 2.1).
Proof.
  exact (proj1 (proj2 percent_rule_decides_division)
           hpPercentageStat 12%N "hpPercentage" 100%float
           wellFormed_hpPercentageStat (or_introl eq_refl) eq_refl eq_refl).
Defined.

(** ** More on the level projector and the converter *)

Lemma NoDup_map_filter {E K : Type} (keyOf : E -> K) (keep : E -> bool)
    (es : list E) (Hkeys : NoDup (map keyOf es)) :
  NoDup (map keyOf (filter keep es)).
Proof.
  induction es as [|x r IH]; simpl; [constructor|].
  simpl in Hkeys. inversion Hkeys as [|? ? Hx Hr]; subst. specialize (IH Hr).
  destruct (keep x); simpl; [|exact IH].
  constructor; [|exact IH].
  intros Hin. apply Hx. apply in_map_iff in Hin as (y & Hy & Hin).
  apply filter_In in Hin as [Hin _]. apply in_map_iff. now exists y.
Qed.

Lemma keys_collected keep value (es : RawCharacter) :
  keys (collected keep value es) = map fst (filter keep es).
Proof. unfold keys, collected. now rewrite map_map. Qed.

Lemma wellFormed_collected keep value (es : RawCharacter) :
  wellFormed es -> wellFormed (collected keep value es).
Proof.
  unfold wellFormed. rewrite keys_collected. apply NoDup_map_filter.
Qed.

Lemma collected_snd keep (es : RawCharacter) :
  collected keep snd es = filter keep es.
Proof.
  unfold collected. rewrite <- (map_id (filter keep es)) at 2.
  apply map_ext. now intros [k v].
Qed.

Lemma filter_all {A : Type} (p : A -> bool) (l : list A) :
  (forall x, In x l -> p x = true) -> filter p l = l.
Proof.
  induction l as [|x r IH]; simpl; intros H; [reflexivity|].
  rewrite (H x (or_introl eq_refl)), IH; [reflexivity|].
  intros y Hy. apply H. now right.
Qed.

Lemma filter_none {A : Type} (p : A -> bool) (l : list A) :
  (forall x, In x l -> p x = false) -> filter p l = [].
Proof.
  induction l as [|x r IH]; simpl; intros H; [reflexivity|].
  rewrite (H x (or_introl eq_refl)). apply IH.
  intros y Hy. apply H. now right.
Qed.

Lemma levelValuesAt_keys (stat : RawCharacter) (level : N) :
  wellFormed stat ->
  keys (levelValuesAt stat level) = map fst (filter projectable stat).
Proof.
  intros Hwf. rewrite levelValuesAt_spec by exact Hwf. apply keys_collected.
Qed.

Lemma buildLevelValues_cases (stat : RawCharacter) :
  wellFormed stat ->
  (filter projectable stat = [] /\ buildLevelValues stat = []) \/
  (filter projectable stat <> [] /\
   buildLevelValues stat
   = [("12", JObject (levelValuesAt stat 12));
      ("16", JObject (levelValuesAt stat 16))]).
Proof.
  intros Hwf. rewrite buildLevelValues_levels.
  unfold TARGET_SKILL_LEVELS. cbn [fold_left].
  change (Js.intToString 12) with "12". change (Js.intToString 16) with "16".
  pose proof (levelValuesAt_keys stat 12 Hwf) as H12.
  pose proof (levelValuesAt_keys stat 16 Hwf) as H16.
  destruct (filter projectable stat) as [|kv rest].
  - left. split; [reflexivity|].
    destruct (levelValuesAt stat 12); [|discriminate].
    now destruct (levelValuesAt stat 16).
  - right. split; [discriminate|].
    destruct (levelValuesAt stat 12) as [|e12 v12]; [discriminate|].
    now destruct (levelValuesAt stat 16) as [|e16 v16]; [discriminate|].
Qed.

(** X1. The level table of a block with distinct keys is either empty or
    holds exactly the two levels "12" and "16", in this order, and then the
    two level objects list the same fields in the same order: the names,
    in block order, of the fields that hold a number and do not end in
    "Growth". *)
Theorem buildLevelValues_levels_share_fields (stat : RawCharacter) :
  wellFormed stat ->
  let names :=
    map fst
      (filter (fun kv => isNumber (snd kv) && negb (Js.endsWith "Growth" (fst kv)))
         stat) in
  (names = [] /\ buildLevelValues stat = []) \/
  (names <> [] /\
   exists values12 values16,
     buildLevelValues stat
     = [("12", JObject values12); ("16", JObject values16)] /\
     keys values12 = names /\ keys values16 = names).
Proof.
  intros Hwf names.
  destruct (buildLevelValues_cases stat Hwf) as [[Hnone Htable]|[Hsome Htable]].
  - left. split; [|exact Htable].
    unfold names. fold projectable. now rewrite Hnone.
  - right. split.
    + unfold names. fold projectable.
      destruct (filter projectable stat); [contradiction|discriminate].
    + exists (levelValuesAt stat 12), (levelValuesAt stat 16).
      split; [exact Htable|].
      split; now apply levelValuesAt_keys.
Qed.

Lemma buildLevelValues_levels_share_fields_witness :
  exists values12 values16,
    buildLevelValues damageStat
    = [("12", JObject values12); ("16", JObject values16)] /\
    keys values12 = ["damage"] /\ keys values16 = ["damage"].
Proof.
  destruct (buildLevelValues_levels_share_fields damageStat wellFormed_damageStat)
    as [[Hnone _]|[_ Hsome]]; [discriminate Hnone|exact Hsome].
Defined.

Lemma hasLevelValues_collected (stat : RawCharacter) :
  wellFormed stat ->
  hasLevelValues stat = false ->
  hasLevelValues (collected keptAsMetadata snd stat) = false.
Proof.
  intros Hwf Hguard. unfold hasLevelValues, get in *.
  rewrite getOwn_collected by exact Hwf.
  destruct (getOwn "levelValues" stat) as [v|]; [|reflexivity].
  now destruct (keptAsMetadata ("levelValues", v)).
Qed.

Lemma keptAsMetadata_not_projectable (kv : string * JsonValue) :
  keptAsMetadata kv = true -> projectable kv = true -> False.
Proof.
  unfold keptAsMetadata, projectable. destruct kv as [k v]. simpl.
  destruct (isNumber v), (Js.endsWith "Growth" k); discriminate.
Qed.

Lemma convertParamStat_of_metadata (stat : RawCharacter) :
  wellFormed stat ->
  hasLevelValues stat = false ->
  convertParamStat (collected keptAsMetadata snd stat)
  = collected keptAsMetadata snd stat.
Proof.
  intros Hwf Hguard.
  assert (Hwf' : wellFormed (collected keptAsMetadata snd stat))
    by now apply wellFormed_collected.
  rewrite convertParamStat_unprocessed;
    [|exact Hwf'|now apply hasLevelValues_collected].
  assert (Hkept : forall kv, In kv (collected keptAsMetadata snd stat) ->
                             keptAsMetadata kv = true).
  { intros kv Hin. rewrite collected_snd in Hin.
    now apply filter_In in Hin. }
  destruct (buildLevelValues_cases _ Hwf') as [[_ ->]|[Hsome _]].
  - rewrite collected_snd at 1. now apply filter_all.
  - exfalso. apply Hsome. apply filter_none. intros kv Hin.
    destruct (projectable kv) eqn:E; [|reflexivity].
    exfalso. now apply (keptAsMetadata_not_projectable kv); [apply Hkept|].
Qed.

Lemma wellFormed_convertParamStat (stat : RawCharacter) :
  wellFormed stat -> wellFormed (convertParamStat stat).
Proof.
  intros Hwf. destruct (hasLevelValues stat) eqn:Hguard.
  - unfold convertParamStat. now rewrite Hguard.
  - rewrite convertParamStat_unprocessed by assumption.
    destruct (buildLevelValues stat).
    + now apply wellFormed_collected.
    + apply wellFormed_set. now apply wellFormed_collected.
Qed.

Lemma convertParamStat_twice (stat : RawCharacter) :
  wellFormed stat ->
  convertParamStat (convertParamStat stat) = convertParamStat stat.
Proof.
  intros Hwf. destruct (hasLevelValues stat) eqn:Hguard.
  - unfold convertParamStat at 2. rewrite Hguard.
    unfold convertParamStat. now rewrite Hguard.
  - rewrite (convertParamStat_unprocessed stat) by assumption.
    destruct (buildLevelValues stat) as [|e table].
    + now apply convertParamStat_of_metadata.
    + unfold convertParamStat, hasLevelValues, get.
      now rewrite getOwn_set_same.
Qed.

(** X2. Converting a block with distinct keys gives a block with distinct
    keys, and converting the result again changes nothing: a converted
    block either carries its level table, and is passed through, or has no
    field left to project. *)
Theorem convertParamStat_idempotent (stat : RawCharacter) :
  wellFormed stat ->
  wellFormed (convertParamStat stat) /\
  convertParamStat (convertParamStat stat) = convertParamStat stat.
Proof.
  intros Hwf. split.
  - now apply wellFormed_convertParamStat.
  - now apply convertParamStat_twice.
Qed.

Lemma convertParamStat_idempotent_witness :
  convertParamStat (convertParamStat damageStat) = convertParamStat damageStat.
Proof.
  exact (proj2 (convertParamStat_idempotent damageStat wellFormed_damageStat)).
Defined.

(** ** The skill transformer *)

Lemma fold_set_map (value : string * JsonValue -> JsonValue) (es : RawCharacter) :
  wellFormed es ->
  fold_left (fun acc kv => set (fst kv) (value kv) acc) es []
  = map (fun kv => (fst kv, value kv)) es.
Proof.
  intros Hwf.
  rewrite (fold_left_pointwise _ (collectStep (fun _ => true) value))
    by reflexivity.
  rewrite fold_collect_empty by exact Hwf.
  unfold collected. now rewrite filter_all.
Qed.

Lemma keys_map_values (value : string * JsonValue -> JsonValue) (es : RawCharacter) :
  keys (map (fun kv => (fst kv, value kv)) es) = keys es.
Proof. unfold keys. rewrite map_map. now apply map_ext. Qed.

Lemma getOwn_map_values (value : string * JsonValue -> JsonValue)
    (es : RawCharacter) (k : string) :
  getOwn k (map (fun kv => (fst kv, value kv)) es)
  = option_map (fun v => value (k, v)) (getOwn k es).
Proof.
  induction es as [|[k' v'] r IH]; simpl; [reflexivity|].
  destruct (String.eqb_spec k' k) as [->|_]; [reflexivity|exact IH].
Qed.

Lemma distinct_NoDup (l : list string) : distinct l = true <-> NoDup l.
Proof.
  induction l as [|k r IH]; simpl.
  - split; [constructor|reflexivity].
  - rewrite andb_true_iff, negb_true_iff, IH. split.
    + intros [Hk Hr]. constructor; [|exact Hr].
      intros Hin. apply existsb_eqb_In in Hin. congruence.
    + intros H. inversion H as [|? ? Hk Hr]; subst. split; [|exact Hr].
      destruct (existsb (String.eqb k) r) eqn:E; [|reflexivity].
      apply existsb_eqb_In in E. contradiction.
Qed.

Lemma transformSkillParams_object (entries : RawCharacter) :
  transformSkillParams (JObject entries)
  = JObject
      (fold_left
         (fun acc kv => set (fst kv) (transformedValue (fst kv) (snd kv)) acc)
         entries []).
Proof.
  cbn [transformSkillParams]. f_equal. apply fold_left_pointwise.
  intros acc [k v]. unfold transformedValue, convertParams. simpl.
  destruct v; try reflexivity. now destruct (k =? "param").
Qed.

Lemma transformSkillParams_wellFormed_object (entries : RawCharacter) :
  wellFormed entries ->
  transformSkillParams (JObject entries)
  = JObject
      (map (fun kv => (fst kv, transformedValue (fst kv) (snd kv))) entries).
Proof.
  intros Hwf. rewrite transformSkillParams_object. f_equal.
  now apply (fold_set_map (fun kv => transformedValue (fst kv) (snd kv))).
Qed.

Lemma convertParams_wellFormed (params : RawCharacter) :
  wellFormed params ->
  convertParams params
  = map (fun kv => (fst kv, convertedValue (snd kv))) params.
Proof.
  intros Hwf. unfold convertParams.
  rewrite (fold_left_pointwise _
             (fun acc kv => set (fst kv) (convertedValue (snd kv)) acc)).
  - now apply (fold_set_map (fun kv => convertedValue (snd kv))).
  - intros acc [k v]. unfold convertedValue. simpl. now destruct v.
Qed.

Lemma convertedValue_twice (v : JsonValue) :
  wellFormedDeep v = true ->
  convertedValue (convertedValue v) = convertedValue v.
Proof.
  destruct v; try reflexivity. simpl. intros H.
  apply andb_prop in H as [Hkeys _]. apply distinct_NoDup in Hkeys.
  now rewrite convertParamStat_twice.
Qed.

Lemma convertParams_twice (params : RawCharacter) :
  wellFormedDeep (JObject params) = true ->
  convertParams (convertParams params) = convertParams params.
Proof.
  simpl. intros H. apply andb_prop in H as [Hkeys Hall].
  apply distinct_NoDup in Hkeys.
  rewrite (convertParams_wellFormed params) by exact Hkeys.
  rewrite convertParams_wellFormed
    by (unfold wellFormed; now rewrite keys_map_values).
  rewrite map_map. apply map_ext_in. intros [k v] Hin. simpl. f_equal.
  apply convertedValue_twice.
  rewrite forallb_forall in Hall. exact (Hall (k, v) Hin).
Qed.

Lemma transformedValue_twice (key : string) (entry : JsonValue) :
  wellFormedDeep entry = true ->
  transformSkillParams (transformSkillParams entry) = transformSkillParams entry ->
  transformedValue key (transformedValue key entry) = transformedValue key entry.
Proof.
  intros Hwf Hidem. destruct entry; try exact Hidem.
  destruct (key =? "param") eqn:Hkey.
  - assert (E : transformedValue key (JObject entries)
                = JObject (convertParams entries))
      by (unfold transformedValue; now rewrite Hkey).
    rewrite E. unfold transformedValue. rewrite Hkey. f_equal.
    now apply convertParams_twice.
  - assert (E : transformedValue key (JObject entries)
                = transformSkillParams (JObject entries))
      by (unfold transformedValue; now rewrite Hkey).
    rewrite E.
    pose proof (transformSkillParams_object entries) as Hobject.
    destruct (transformSkillParams (JObject entries)) eqn:Hout;
      try discriminate Hobject.
    unfold transformedValue. rewrite Hkey. exact Hidem.
Qed.

Lemma transformSkillParams_twice (value : JsonValue) :
  wellFormedDeep value = true ->
  transformSkillParams (transformSkillParams value) = transformSkillParams value.
Proof.
  induction value as [| | b | n | s | items IH | entries IH]
    using JsonValue_nested_ind; try reflexivity; intros Hwf.
  - cbn [transformSkillParams]. f_equal. rewrite map_map.
    apply map_ext_in. intros v Hin. rewrite Forall_forall in IH.
    apply IH; [exact Hin|].
    simpl in Hwf. rewrite forallb_forall in Hwf. now apply Hwf.
  - simpl in Hwf. apply andb_prop in Hwf as [Hkeys Hall].
    apply distinct_NoDup in Hkeys.
    rewrite (transformSkillParams_wellFormed_object entries) by exact Hkeys.
    rewrite transformSkillParams_wellFormed_object
      by (unfold wellFormed;
          now rewrite (keys_map_values
                         (fun kv => transformedValue (fst kv) (snd kv)))).
    f_equal. rewrite map_map. apply map_ext_in. intros [k v] Hin. simpl.
    f_equal. rewrite forallb_forall in Hall. rewrite Forall_forall in IH.
    apply transformedValue_twice; [exact (Hall (k, v) Hin)|].
    apply (IH (k, v) Hin). exact (Hall (k, v) Hin).
Qed.

(** X3. Transforming a skill structure whose objects hold every key once,
    at every depth, and transforming the result again gives the same
    structure as transforming it once. *)
Theorem transformSkillParams_idempotent (value : JsonValue) :
  wellFormedDeep value = true ->
  transformSkillParams (transformSkillParams value) = transformSkillParams value.
Proof. apply transformSkillParams_twice. Qed.

Lemma transformSkillParams_idempotent_witness :
  transformSkillParams (transformSkillParams sampleSkill)
  = transformSkillParams sampleSkill.
Proof. exact (transformSkillParams_idempotent sampleSkill eq_refl). Defined.

(** X4. On an object with distinct keys [transformSkillParams] keeps the
    keys and their order.  Under the key "param", when it holds an object
    with distinct keys, every child that is an object is replaced by its
    conversion by [convertParamStat] and every other child stays as it is,
    under the same keys; the value of any other entry is transformed
    recursively, and so is the value of "param" when it is not an object. *)
Theorem transformSkillParams_converts_param_children (entries : RawCharacter) :
  wellFormed entries ->
  exists out,
    transformSkillParams (JObject entries) = JObject out /\
    keys out = keys entries /\
    (forall params,
       getOwn "param" entries = Some (JObject params) ->
       wellFormed params ->
       exists converted,
         getOwn "param" out = Some (JObject converted) /\
         keys converted = keys params /\
         forall k,
           getOwn k converted =
           match getOwn k params with
           | Some (JObject stat) => Some (JObject (convertParamStat stat))
           | other => other
           end) /\
    (forall k entry,
       getOwn k entries = Some entry ->
       k <> "param" \/ (forall params, entry <> JObject params) ->
       getOwn k out = Some (transformSkillParams entry)).
Proof.
  intros Hwf.
  exists (map (fun kv => (fst kv, transformedValue (fst kv) (snd kv))) entries).
  split; [now apply transformSkillParams_wellFormed_object|].
  split; [apply (keys_map_values (fun kv => transformedValue (fst kv) (snd kv)))|].
  split.
  - intros params Hparam Hparams.
    exists (map (fun kv => (fst kv, convertedValue (snd kv))) params).
    split; [|split].
    + rewrite (getOwn_map_values
                 (fun kv => transformedValue (fst kv) (snd kv))), Hparam.
      simpl. now rewrite convertParams_wellFormed.
    + apply (keys_map_values (fun kv => convertedValue (snd kv))).
    + intros k.
      rewrite (getOwn_map_values (fun kv => convertedValue (snd kv))).
      destruct (getOwn k params) as [[]|]; reflexivity.
  - intros k entry Hk Hother.
    rewrite (getOwn_map_values
               (fun kv => transformedValue (fst kv) (snd kv))), Hk.
    simpl. f_equal. unfold transformedValue.
    destruct entry; try reflexivity.
    destruct (String.eqb_spec k "param") as [->|_]; [|reflexivity].
    destruct Hother as [Hne|Hne]; [contradiction|].
    now contradiction (Hne entries0).
Qed.

Lemma transformSkillParams_converts_param_children_witness :
  exists out,
    transformSkillParams
      (JObject [("desc", JString "hit"); ("param", JObject [("dmg", JObject damageStat)])])
    = JObject out /\
    keys out = ["desc"; "param"].
Proof.
  assert (Hwf : wellFormed
                  [("desc", JString "hit");
                   ("param", JObject [("dmg", JObject damageStat)])]).
  { unfold wellFormed. simpl. repeat constructor; simpl; intuition discriminate. }
  destruct (transformSkillParams_converts_param_children _ Hwf)
    as (out & Hout & Hkeys & _).
  exists out. split; [exact Hout|exact Hkeys].
Defined.

(** ** The key normaliser on keys that do not collide *)

Section FreshKeys.
Local Open Scope list_scope.

Lemma getOwn_app k (a b : RawCharacter) :
  getOwn k (a ++ b) =
  match getOwn k a with
  | Some v => Some v
  | None => getOwn k b
  end.
Proof.
  induction a as [|[k' v'] r IH]; simpl; [reflexivity|].
  now destruct (k' =? k).
Qed.

Lemma NoDup_map_injective {A B : Type} (f : A -> B) (l : list A) x y :
  NoDup (map f l) -> In x l -> In y l -> f x = f y -> x = y.
Proof.
  induction l as [|z r IH]; simpl; intros Hnd Hx Hy Hf; [contradiction|].
  inversion Hnd as [|? ? Hz Hr]; subst.
  destruct Hx as [->|Hx], Hy as [->|Hy]; try reflexivity.
  - exfalso. apply Hz. rewrite Hf. now apply in_map.
  - exfalso. apply Hz. rewrite <- Hf. now apply in_map.
  - now apply IH.
Qed.

Lemma NoDup_map_app_filter {A B : Type} (f : A -> B) (p : A -> bool)
    (a l : list A) :
  NoDup (map f (a ++ l)) -> NoDup (map f (a ++ filter p l)).
Proof.
  induction a as [|x r IH]; simpl; intros H; [now apply NoDup_map_filter|].
  inversion H as [|? ? Hx Hr]; subst.
  constructor; [|now apply IH].
  intros Hin. apply Hx. rewrite map_app, in_app_iff in *.
  destruct Hin as [Hin|Hin]; [now left|right].
  apply in_map_iff in Hin as (y & Hy & Hin).
  apply filter_In in Hin as [Hin _]. apply in_map_iff. now exists y.
Qed.

Lemma fold_normalizeEntry_fresh (es : RawCharacter) : forall acc,
  NoDup (keys acc ++ map toLowerCamelCase (keys es)) ->
  fold_left normalizeEntry es acc = acc ++ map normalizedPair es.
Proof.
  induction es as [|[k v] r IH]; intros acc Hnd; simpl.
  - now rewrite app_nil_r.
  - simpl in Hnd.
    assert (Hk : ~ In (toLowerCamelCase k) (keys acc)).
    { intros Hin. apply NoDup_remove_2 in Hnd. apply Hnd.
      apply in_or_app. now left. }
    rewrite set_fresh by exact Hk. rewrite IH.
    + now rewrite <- app_assoc.
    + unfold keys at 1. rewrite map_app. simpl. rewrite <- app_assoc. exact Hnd.
Qed.

Lemma normalizeKeys_fresh (entries : RawCharacter) :
  NoDup (map toLowerCamelCase (keys entries)) ->
  normalizeKeys (JObject entries) = JObject (map normalizedPair entries).
Proof.
  intros Hnd. rewrite normalizeKeys_object. f_equal.
  now rewrite fold_normalizeEntry_fresh.
Qed.

Lemma getOwn_normalized (L : list string) (es : RawCharacter) (K : string) :
  NoDup (map toLowerCamelCase L) ->
  incl (keys es) L ->
  In K L ->
  getOwn (toLowerCamelCase K) (map normalizedPair es)
  = option_map normalizeKeys (getOwn K es).
Proof.
  intros Hnd Hincl HK.
  induction es as [|[k v] r IH]; simpl; [reflexivity|].
  assert (Hk : In k L) by (apply Hincl; now left).
  assert (Hr : incl (keys r) L) by (intros x Hx; apply Hincl; now right).
  destruct (String.eqb_spec k K) as [->|Hne].
  - now rewrite String.eqb_refl.
  - destruct (String.eqb_spec (toLowerCamelCase k) (toLowerCamelCase K))
      as [Heq|_]; [|now apply IH].
    exfalso. apply Hne.
    now apply (NoDup_map_injective toLowerCamelCase L).
Qed.

End FreshKeys.

(** X5. When the keys of an object are ASCII and rewrite to distinct keys
    none of which starts with a digit, [normalizeKeys] merges and reorders
    nothing: the result holds one entry for each entry of the input, in the
    same order, under the rewritten key and with the normalised value. *)
Theorem normalizeKeys_keeps_entries_without_collision (entries : RawCharacter) :
  Forall (fun key => asciiKey key = true) (keys entries) ->
  Forall (fun key => startsDigit (toLowerCamelCase key) = false) (keys entries) ->
  NoDup (map toLowerCamelCase (keys entries)) ->
  normalizeKeys (JObject entries)
  = JObject
      (map (fun kv => (toLowerCamelCase (fst kv), normalizeKeys (snd kv)))
         entries).
Proof. intros _ _. apply normalizeKeys_fresh. Qed.

Lemma normalizeKeys_keeps_entries_without_collision_witness :
  Forall (fun key => asciiKey key = true) (keys mixedStats) /\
  Forall (fun key => startsDigit (toLowerCamelCase key) = false) (keys mixedStats) /\
  normalizeKeys (JObject mixedStats)
  = JObject [("hP", JNumber 100); ("hPGrowth", JNumber 5); ("note", JString "x")].
Proof.
  assert (Hascii : Forall (fun key => asciiKey key = true) (keys mixedStats))
    by (repeat constructor).
  assert (Hdigit : Forall (fun key => startsDigit (toLowerCamelCase key) = false)
                     (keys mixedStats))
    by (repeat constructor).
  assert (Hnd : NoDup (map toLowerCamelCase (keys mixedStats))).
  { apply distinct_NoDup. reflexivity. }
  split; [exact Hascii|]. split; [exact Hdigit|].
  exact (normalizeKeys_keeps_entries_without_collision mixedStats
           Hascii Hdigit Hnd).
Defined.

(** ** The tags of the string leaves *)

Section StringLeaves.
Local Open Scope list_scope.

Lemma In_value_set k v (o : RawCharacter) : In v (map snd (set k v o)).
Proof.
  induction o as [|[k' v'] r IH]; simpl; [now left|].
  destruct (k' =? k); simpl; [now left|now right].
Qed.

Lemma fold_normalizeEntry_values (all : list JsonValue) (es : RawCharacter) :
  forall acc,
    (forall kv, In kv es -> In (snd kv) all) ->
    Forall (fun kv => exists v, In v all /\ snd kv = normalizeKeys v) acc ->
    Forall (fun kv => exists v, In v all /\ snd kv = normalizeKeys v)
      (fold_left normalizeEntry es acc).
Proof.
  induction es as [|[k v] r IH]; intros acc Hall Hacc; [exact Hacc|].
  cbn [fold_left normalizeEntry]. apply IH.
  - intros kv Hin. apply Hall. now right.
  - apply Forall_set; [exact Hacc|].
    exists v. split; [|reflexivity]. apply (Hall (k, v)). now left.
Qed.

Lemma normalizeKeys_object_values (entries : RawCharacter) :
  exists out,
    normalizeKeys (JObject entries) = JObject out /\
    (forall stored, In stored (map snd out) ->
       exists v, In v (map snd entries) /\ stored = normalizeKeys v) /\
    (forall earlier key v, entries = earlier ++ [(key, v)] ->
       In (normalizeKeys v) (map snd out)) /\
    (Forall (fun key => asciiKey key = true) (keys entries) ->
     NoDup (map toLowerCamelCase (keys entries)) ->
     forall key v, In (key, v) entries ->
       getOwn (toLowerCamelCase key) out = Some (normalizeKeys v)).
Proof.
  exists (fold_left normalizeEntry entries []).
  split; [apply normalizeKeys_object|]. split; [|split].
  - intros stored Hin. apply in_map_iff in Hin as (kv & <- & Hin).
    assert (H : Forall (fun kv => exists v, In v (map snd entries) /\
                                           snd kv = normalizeKeys v)
                  (fold_left normalizeEntry entries [])).
    { apply fold_normalizeEntry_values; [|constructor].
      intros kv' Hkv'. now apply in_map. }
    rewrite Forall_forall in H. now apply H.
  - intros earlier key v ->. rewrite fold_left_app. cbn [fold_left normalizeEntry].
    apply In_value_set.
  - intros _ Hnd key v Hin.
    rewrite fold_normalizeEntry_fresh by exact Hnd. cbn [app].
    rewrite (getOwn_normalized (keys entries)); auto using incl_refl.
    + rewrite (getOwn_In key v); [reflexivity| |exact Hin].
      unfold wellFormed. now apply NoDup_map_inv in Hnd.
    + apply in_map_iff. now exists (key, v).
Qed.

End StringLeaves.

(** C8. In a string leaf, at any depth of arrays and objects, a tag is an
    opening bracket, a content that is not empty and holds no ">" (it may
    hold "<"), and the next ">".  Read from the left, every tag is
    deleted, unless its content begins with "IconMap:", and then it stays
    as it is, in place; a character that is not "<", the brackets "<>"
    and an opening bracket that no ">" follows stay, with what follows
    treated the same way.  [normalizeKeys] applies this to a string leaf,
    to every element of an array and to the values of an object: what an
    object of the result stores is the normalised value of an entry, the
    last entry is always stored, and so is every entry when the keys are
    ASCII and rewrite to distinct keys.  Every other leaf ([undefined],
    [null], a boolean, a number) is returned unchanged. *)
Theorem normalizeKeys_strips_tags_of_string_leaves :
  (forall s, normalizeKeys (JString s) = JString (stripHtmlTags s)) /\
  (stripHtmlTags "" = "" /\
   (forall c s, isLt c = false ->
      stripHtmlTags (String c s) = String c (stripHtmlTags s)) /\
   (forall content post, content <> "" -> allChars notGt content = true ->
      stripHtmlTags ("<" ++ content ++ ">" ++ post)
      = (if Js.startsWith "IconMap:" content
         then "<" ++ content ++ ">" else "")
        ++ stripHtmlTags post) /\
   (forall post, stripHtmlTags ("<>" ++ post) = "<>" ++ stripHtmlTags post) /\
   (forall s, allChars notGt s = true -> stripHtmlTags ("<" ++ s) = "<" ++ s)) /\
  (forall items, normalizeKeys (JArray items) = JArray (map normalizeKeys items)) /\
  (forall entries, exists out,
     normalizeKeys (JObject entries) = JObject out /\
     (forall stored, In stored (map snd out) ->
        exists v, In v (map snd entries) /\ stored = normalizeKeys v) /\
     (forall earlier key v, entries = (earlier ++ [(key, v)])%list ->
        In (normalizeKeys v) (map snd out)) /\
     (Forall (fun key => asciiKey key = true) (keys entries) ->
      NoDup (map toLowerCamelCase (keys entries)) ->
      forall key v, In (key, v) entries ->
        getOwn (toLowerCamelCase key) out = Some (normalizeKeys v))) /\
  normalizeKeys JUndefined = JUndefined /\
  normalizeKeys JNull = JNull /\
  (forall b, normalizeKeys (JBool b) = JBool b) /\
  (forall n, normalizeKeys (JNumber n) = JNumber n).
Proof.
  split; [reflexivity|]. split; [|split; [reflexivity|]].
  - split; [reflexivity|]. split; [|split; [|split]].
    + intros c s Hc. rewrite !stripHtmlTags_scan. simpl. now rewrite Hc.
    + intros content post Hne Hcontent.
      apply (stripHtmlTags_tag content post Hne Hcontent).
    + apply stripHtmlTags_empty_brackets.
    + intros s Hs. rewrite stripHtmlTags_scan.
      change (stripScan None ("<" ++ s)) with (stripScan (Some "") s).
      now rewrite stripScan_unclosed.
  - split; [apply normalizeKeys_object_values|]. now repeat split.
Qed.

Lemma normalizeKeys_strips_tags_of_string_leaves_witness :
  normalizeKeys
    (JArray
       [JString "Deals <color=#F0D12B>fire</color> damage <IconMap:Icon_Fire>!"])
  = JArray [JString "Deals fire damage <IconMap:Icon_Fire>!"].
Proof.
  destruct normalizeKeys_strips_tags_of_string_leaves
    as (Hstring & (_ & Htext & Htag & _) & Harray & _).
  rewrite Harray. cbn [map]. rewrite Hstring.
  assert (Hne : "color=#F0D12B" <> "") by discriminate.
  rewrite !Htext by reflexivity.
  change (stripHtmlTags "<color=#F0D12B>fire</color> damage <IconMap:Icon_Fire>!")
    with (stripHtmlTags
            ("<" ++ "color=#F0D12B" ++ ">"
             ++ "fire</color> damage <IconMap:Icon_Fire>!")).
  rewrite (Htag "color=#F0D12B" "fire</color> damage <IconMap:Icon_Fire>!"
             Hne eq_refl).
  reflexivity.
Defined.

(** C8, as the claim states it, fails: in "a<<IconMap:Icon_Fire>b" the
    tag that is read begins at the first bracket, its content does not
    begin with "IconMap:", and it is deleted with the icon reference in
    it. *)
Lemma normalizeKeys_deletes_icon_tag_after_stray_bracket :
  normalizeKeys (JString "a<<IconMap:Icon_Fire>b") = JString "ab" /\
  Js.includes "<IconMap:Icon_Fire>" "a<<IconMap:Icon_Fire>b" = true /\
  Js.includes "<IconMap:Icon_Fire>" "ab" = false.
Proof. repeat split. Qed.

(** ** The record assembler *)

Section Assembler.
Local Open Scope list_scope.

Lemma fold_passThrough (detail : RawCharacter) (ks : list string) : forall acc,
  NoDup (keys acc ++ ks) ->
  fold_left
    (fun simplified key =>
       match get key detail with
       | JUndefined => simplified
       | entry => set key entry simplified
       end)
    ks acc
  = acc ++ map (fun key => (key, get key detail))
             (filter (fun key => isDefined (get key detail)) ks).
Proof.
  induction ks as [|k r IH]; intros acc Hnd; simpl.
  - now rewrite app_nil_r.
  - assert (Hk : ~ In k (keys acc)).
    { intros Hin. apply NoDup_remove_2 in Hnd. apply Hnd.
      apply in_or_app. now left. }
    assert (Hfresh : forall v,
               fold_left
                 (fun simplified key =>
                    match get key detail with
                    | JUndefined => simplified
                    | entry => set key entry simplified
                    end) r (set k v acc)
               = acc ++ (k, v) :: map (fun key => (key, get key detail))
                                    (filter (fun key => isDefined (get key detail)) r)).
    { intros v. rewrite IH.
      - rewrite set_fresh by exact Hk. now rewrite <- app_assoc.
      - rewrite set_fresh by exact Hk. unfold keys. rewrite map_app. simpl.
        rewrite <- app_assoc. exact Hnd. }
    destruct (get k detail) eqn:E; simpl; rewrite ?E; try apply Hfresh.
    apply IH. now apply NoDup_remove_1 in Hnd.
Qed.

Lemma simplifyCharacter_steps (detail : RawCharacter) :
  simplifyCharacter detail =
  match normalizeKeys (JObject (simplifiedFields detail)) with
  | JObject normalized => transformSkill normalized
  | _ => []
  end.
Proof.
  assert (E : fold_left
                (fun simplified key =>
                   match get key detail with
                   | JUndefined => simplified
                   | entry => set key entry simplified
                   end)
                PASS_THROUGH_KEYS
                match simplifyStats (asRecord (get "Stats" detail)) with
                | Some stats => set "Stats" (JObject stats) (baseFields detail)
                | None => baseFields detail
                end
              = simplifiedFields detail).
  { unfold simplifiedFields, statsField, passThroughFields.
    destruct (simplifyStats (asRecord (get "Stats" detail))) as [stats|].
    - rewrite fold_passThrough.
      + reflexivity.
      + apply distinct_NoDup. reflexivity.
    - rewrite fold_passThrough; [reflexivity|].
      apply distinct_NoDup. reflexivity. }
  unfold simplifyCharacter. cbv zeta. fold (baseFields detail).
  rewrite E. reflexivity.
Qed.

Lemma keys_simplifiedFields (detail : RawCharacter) :
  keys (simplifiedFields detail)
  = BASE_KEYS ++ keys (statsField detail)
    ++ filter (fun key => isDefined (get key detail)) PASS_THROUGH_KEYS.
Proof.
  unfold simplifiedFields, keys, passThroughFields.
  rewrite !map_app, map_map. simpl. now rewrite map_id.
Qed.

Lemma simplifiedFields_fresh (detail : RawCharacter) :
  NoDup (map toLowerCamelCase (keys (simplifiedFields detail))).
Proof.
  rewrite keys_simplifiedFields. unfold statsField.
  destruct (simplifyStats (asRecord (get "Stats" detail))).
  - change (BASE_KEYS ++ keys [("Stats", JObject r)] ++ ?l)
      with ((BASE_KEYS ++ ["Stats"]) ++ l).
    apply NoDup_map_app_filter. apply distinct_NoDup. reflexivity.
  - apply (NoDup_map_app_filter toLowerCamelCase _ BASE_KEYS).
    apply distinct_NoDup. reflexivity.
Qed.

Lemma simplifyCharacter_normalized (detail : RawCharacter) :
  simplifyCharacter detail
  = transformSkill (map normalizedPair (simplifiedFields detail)).
Proof.
  rewrite simplifyCharacter_steps.
  now rewrite normalizeKeys_fresh by apply simplifiedFields_fresh.
Qed.

End Assembler.

Section AssembledFields.
Local Open Scope list_scope.

Lemma transformSkillParams_falsy (v : JsonValue) :
  truthy v = false -> transformSkillParams v = v.
Proof. now destruct v. Qed.

Lemma getOwn_Some_key k v (o : RawCharacter) :
  getOwn k o = Some v -> existsb (String.eqb k) (keys o) = true.
Proof.
  intros H. apply existsb_eqb_In. apply getOwn_present in H.
  change k with (fst (k, v)). now apply in_map.
Qed.

Lemma keys_transformSkill (normalized : RawCharacter) :
  keys (transformSkill normalized) = keys normalized.
Proof.
  unfold transformSkill, get.
  destruct (getOwn "skill" normalized) as [v|] eqn:E; [|reflexivity].
  destruct (truthy v); [|reflexivity].
  rewrite keys_set. now rewrite (getOwn_Some_key _ _ _ E).
Qed.

Lemma getOwn_transformSkill (normalized : RawCharacter) (k : string) :
  getOwn k (transformSkill normalized) =
  if k =? "skill" then option_map transformSkillParams (getOwn k normalized)
  else getOwn k normalized.
Proof.
  unfold transformSkill, get.
  destruct (String.eqb_spec k "skill") as [->|Hne].
  - destruct (getOwn "skill" normalized) as [v|] eqn:E; simpl.
    + destruct (truthy v) eqn:Ht.
      * apply getOwn_set_same.
      * now rewrite E, transformSkillParams_falsy.
    + now rewrite E.
  - destruct (getOwn "skill" normalized) as [v|]; [|reflexivity].
    destruct (truthy v); [|reflexivity].
    apply getOwn_set_other. congruence.
Qed.

Lemma keys_normalizedPair (es : RawCharacter) :
  keys (map normalizedPair es) = map toLowerCamelCase (keys es).
Proof. unfold keys. now rewrite !map_map. Qed.

Lemma getOwn_mapped_keys (f : string -> JsonValue) (p : string -> bool)
    (ks : list string) (K : string) :
  getOwn K (map (fun key => (key, f key)) (filter p ks)) =
  if existsb (String.eqb K) ks && p K then Some (f K) else None.
Proof.
  induction ks as [|k r IH]; simpl; [reflexivity|].
  rewrite (String.eqb_sym K k).
  destruct (String.eqb_spec k K) as [->|Hne]; simpl.
  - destruct (p K) eqn:E; simpl.
    + now rewrite String.eqb_refl.
    + rewrite IH. now rewrite andb_false_r.
  - destruct (p k); simpl; [|exact IH].
    destruct (String.eqb_spec k K); [contradiction|exact IH].
Qed.

Lemma getOwn_simplifiedFields (detail : RawCharacter) (K : string) :
  getOwn K (simplifiedFields detail) =
  match getOwn K (baseFields detail) with
  | Some v => Some v
  | None =>
      match getOwn K (statsField detail) with
      | Some v => Some v
      | None =>
          if existsb (String.eqb K) PASS_THROUGH_KEYS && isDefined (get K detail)
          then Some (get K detail) else None
      end
  end.
Proof.
  unfold simplifiedFields. rewrite !getOwn_app.
  unfold passThroughFields.
  now rewrite (getOwn_mapped_keys (fun key => get key detail)).
Qed.

Lemma simplifiedFields_keys_incl (detail : RawCharacter) :
  incl (keys (simplifiedFields detail))
    (BASE_KEYS ++ ["Stats"] ++ PASS_THROUGH_KEYS).
Proof.
  rewrite keys_simplifiedFields. intros k Hk.
  rewrite !in_app_iff in *. destruct Hk as [Hk|[Hk|Hk]].
  - now left.
  - right; left. unfold statsField in Hk.
    now destruct (simplifyStats (asRecord (get "Stats" detail))).
  - right; right. now apply filter_In in Hk.
Qed.

Lemma getOwn_simplifyCharacter (detail : RawCharacter) (K : string) :
  In K (BASE_KEYS ++ ["Stats"] ++ PASS_THROUGH_KEYS) ->
  getOwn (toLowerCamelCase K) (simplifyCharacter detail) =
  if toLowerCamelCase K =? "skill"
  then option_map transformSkillParams
         (option_map normalizeKeys (getOwn K (simplifiedFields detail)))
  else option_map normalizeKeys (getOwn K (simplifiedFields detail)).
Proof.
  intros HK. rewrite simplifyCharacter_normalized, getOwn_transformSkill.
  rewrite (getOwn_normalized (BASE_KEYS ++ ["Stats"] ++ PASS_THROUGH_KEYS));
    [reflexivity| |apply simplifiedFields_keys_incl|exact HK].
  apply distinct_NoDup. reflexivity.
Qed.

End AssembledFields.

(** X6. Whatever the detail record, the simplified record holds the nine
    identity keys first, then "stats" when the stat block has a numeric
    entry, then the rewritten name of each pass-through key that the detail
    record defines, in the order of the allowlist; it holds no other key
    and holds no key twice. *)
Theorem simplifyCharacter_keys (detail : RawCharacter) :
  keys (simplifyCharacter detail)
  = (["id"; "name"; "codeName"; "rarity"; "weaponType"; "elementType";
      "specialElementType"; "hitType"; "camp"]
     ++ match simplifyStats (asRecord (get "Stats" detail)) with
        | Some _ => ["stats"]
        | None => []
        end
     ++ map toLowerCamelCase
          (filter (fun key => isDefined (get key detail)) PASS_THROUGH_KEYS))%list /\
  NoDup (keys (simplifyCharacter detail)).
Proof.
  rewrite simplifyCharacter_normalized, keys_transformSkill, keys_normalizedPair.
  split; [|apply simplifiedFields_fresh].
  rewrite keys_simplifiedFields, !map_app. unfold statsField.
  now destruct (simplifyStats (asRecord (get "Stats" detail))).
Qed.

(** X7. The identity fields of the simplified record are the normalised
    fields of the detail record: "id", "name" and "codeName" as they are,
    "rarity" after [formatRarity], "weaponType", "elementType", "hitType"
    and "camp" after [pickFirstValue], "specialElementType" the string
    under [SpecialElementType.Name] with its tags stripped, or [undefined];
    and "stats" is the normalised result of [simplifyStats], absent when
    that result is. *)
Theorem simplifyCharacter_identity_fields (detail : RawCharacter) :
  let out := simplifyCharacter detail in
  getOwn "id" out = Some (normalizeKeys (get "Id" detail)) /\
  getOwn "name" out = Some (normalizeKeys (get "Name" detail)) /\
  getOwn "codeName" out = Some (normalizeKeys (get "CodeName" detail)) /\
  getOwn "rarity" out
  = Some (normalizeKeys (formatRarity (get "Rarity" detail))) /\
  getOwn "weaponType" out
  = Some (normalizeKeys (pickFirstValue (get "WeaponType" detail))) /\
  getOwn "elementType" out
  = Some (normalizeKeys (pickFirstValue (get "ElementType" detail))) /\
  getOwn "specialElementType" out
  = Some match optionalName (get "SpecialElementType" detail) with
         | JString s => JString (stripHtmlTags s)
         | _ => JUndefined
         end /\
  getOwn "hitType" out
  = Some (normalizeKeys (pickFirstValue (get "HitType" detail))) /\
  getOwn "camp" out
  = Some (normalizeKeys (pickFirstValue (get "Camp" detail))) /\
  getOwn "stats" out
  = option_map (fun stats => normalizeKeys (JObject stats))
      (simplifyStats (asRecord (get "Stats" detail))).
Proof.
  intros out. unfold out.
  repeat match goal with |- _ /\ _ => split end.
  - refine (getOwn_simplifyCharacter detail "Id" _). simpl; tauto.
  - refine (getOwn_simplifyCharacter detail "Name" _). simpl; tauto.
  - refine (getOwn_simplifyCharacter detail "CodeName" _). simpl; tauto.
  - refine (getOwn_simplifyCharacter detail "Rarity" _). simpl; tauto.
  - refine (getOwn_simplifyCharacter detail "WeaponType" _). simpl; tauto.
  - refine (getOwn_simplifyCharacter detail "ElementType" _). simpl; tauto.
  - etransitivity;
      [refine (getOwn_simplifyCharacter detail "SpecialElementType" _);
       simpl; tauto|].
    change (toLowerCamelCase "SpecialElementType" =? "skill") with false.
    cbv iota. rewrite getOwn_simplifiedFields.
    change (getOwn "SpecialElementType" (baseFields detail))
      with (Some (ofOptionalString
                    (getString (optionalName (get "SpecialElementType" detail))))).
    simpl. now destruct (optionalName (get "SpecialElementType" detail)).
  - refine (getOwn_simplifyCharacter detail "HitType" _). simpl; tauto.
  - refine (getOwn_simplifyCharacter detail "Camp" _). simpl; tauto.
  - etransitivity;
      [refine (getOwn_simplifyCharacter detail "Stats" _); simpl; tauto|].
    change (toLowerCamelCase "Stats" =? "skill") with false. cbv iota.
    rewrite getOwn_simplifiedFields.
    change (getOwn "Stats" (baseFields detail)) with (@None JsonValue).
    unfold statsField.
    now destruct (simplifyStats (asRecord (get "Stats" detail))).
Qed.

(** X8. For each pass-through key of the allowlist: when the detail record
    does not define it the simplified record has no entry under its
    rewritten name; when it does, the entry is the normalised value, and
    for "Skill" the normalised value transformed by
    [transformSkillParams]. *)
Theorem simplifyCharacter_pass_through_fields (detail : RawCharacter) (key : string) :
  In key PASS_THROUGH_KEYS ->
  getOwn (toLowerCamelCase key) (simplifyCharacter detail) =
  match get key detail with
  | JUndefined => None
  | entry =>
      Some (if key =? "Skill"
            then transformSkillParams (normalizeKeys entry)
            else normalizeKeys entry)
  end.
Proof.
  intros Hkey.
  rewrite getOwn_simplifyCharacter
    by (apply in_or_app; right; apply in_or_app; now right).
  rewrite getOwn_simplifiedFields.
  assert (Hin : existsb (String.eqb key) PASS_THROUGH_KEYS = true)
    by now apply existsb_eqb_In.
  rewrite Hin. clear Hin.
  unfold statsField.
  simpl in Hkey.
  repeat (destruct Hkey as [<-|Hkey];
          [ destruct (simplifyStats (asRecord (get "Stats" detail)));
            match goal with
            | |- context [get ?k detail] => now destruct (get k detail)
            end | ]).
  contradiction.
Qed.

Lemma simplifyCharacter_pass_through_fields_witness :
  getOwn "skill" (simplifyCharacter sampleDetail)
  = Some (transformSkillParams (normalizeKeys sampleSkill)).
Proof.
  exact (simplifyCharacter_pass_through_fields sampleDetail "Skill"
           (or_intror (or_intror (or_intror (or_introl eq_refl))))).
Defined.

(** ** The slugifier *)

(** *** The matcher on [c+] alone *)

Lemma plusFrom_whole_run p (F : string -> string -> Found) (s : string) :
  forall taken,
  plusFrom p taken s (fun t rest => Some (F t rest)) =
  match s with
  | EmptyString => None
  | String c _ =>
      if p c then Some (F (taken ++ takeWhile p s) (dropWhile p s)) else None
  end.
Proof.
  induction s as [|c r IH]; intros taken; [reflexivity|].
  cbn [plusFrom]. destruct (p c) eqn:Hc; [|reflexivity].
  rewrite IH. cbn [takeWhile dropWhile]. rewrite Hc.
  destruct r as [|d r']; [reflexivity|].
  destruct (p d) eqn:Hd.
  - now rewrite append_snoc.
  - cbn [takeWhile dropWhile]. now rewrite Hd.
Qed.

Lemma replaceRuns_in_run p rep (s : string) :
  replaceRuns p rep true s = replaceRuns p rep false (dropWhile p s).
Proof.
  induction s as [|c r IH]; [reflexivity|]. simpl.
  destruct (p c) eqn:Hc; [exact IH|]. simpl. now rewrite Hc.
Qed.

Lemma length_dropWhile p (s : string) :
  String.length (dropWhile p s) <= String.length s.
Proof.
  induction s as [|c r IH]; simpl; [lia|]. destruct (p c); simpl; lia.
Qed.

Lemma takeWhile_nonempty p c (r : string) taken :
  p c = true -> (taken ++ takeWhile p (String c r) =? "") = false.
Proof. intros Hc. simpl. rewrite Hc. now destruct taken. Qed.

Lemma replaceFrom_plus p rep (fuel : nat) : forall atStart s,
  String.length s < fuel ->
  replaceFrom (Plus p) (fun _ _ => rep) fuel atStart s
  = replaceRuns p rep false s.
Proof.
  induction fuel as [|fuel IH]; intros atStart s Hfuel; [lia|].
  cbn [replaceFrom]. unfold exec. cbn [matchRe].
  rewrite (plusFrom_whole_run p (fun t rest => mkFound t None rest) s "").
  destruct s as [|c r]; [reflexivity|]. simpl in Hfuel.
  destruct (p c) eqn:Hc.
  - cbn [text group1 remainder]. rewrite (takeWhile_nonempty p c r "" Hc).
    cbn [dropWhile replaceRuns]. rewrite Hc.
    pose proof (length_dropWhile p r).
    rewrite IH by lia. now rewrite replaceRuns_in_run.
  - cbn [replaceRuns]. rewrite Hc. now rewrite IH by lia.
Qed.

(** *** The matcher on [(^-+|-+$)] *)

Lemma plusFrom_to_end p (s : string) : forall taken,
  plusFrom p taken s
    (fun t rest =>
       match rest with
       | EmptyString => Some (mkFound (t ++ "") (Some (t ++ "")) rest)
       | String _ _ => None
       end)
  = match s with
    | EmptyString => None
    | String _ _ =>
        if allChars p s
        then Some (mkFound ((taken ++ s) ++ "") (Some ((taken ++ s) ++ "")) "")
        else None
    end.
Proof.
  induction s as [|c r IH]; intros taken; [reflexivity|].
  cbn [plusFrom allChars]. destruct (p c) eqn:Hc; [|reflexivity].
  rewrite IH. destruct r as [|d r']; [reflexivity|].
  cbn [andb]. destruct (allChars p (String d r')); [|reflexivity].
  now rewrite append_snoc.
Qed.

Lemma exec_edgeRegex_later (s : string) :
  exec edgeRegex false s =
  match s with
  | EmptyString => None
  | String _ _ =>
      if allChars isHyphen s
      then Some (mkFound (s ++ "") (Some (s ++ "")) "")
      else None
  end.
Proof.
  unfold exec, edgeRegex. cbn [matchRe].
  exact (plusFrom_to_end isHyphen s "").
Qed.

Lemma exec_edgeRegex_first (s : string) :
  exec edgeRegex true s =
  match s with
  | EmptyString => None
  | String c _ =>
      if isHyphen c
      then Some (mkFound (takeWhile isHyphen s) (Some (takeWhile isHyphen s))
                   (dropWhile isHyphen s))
      else None
  end.
Proof.
  unfold exec, edgeRegex. cbn [matchRe].
  rewrite (plusFrom_whole_run isHyphen
             (fun t rest => mkFound ("" ++ t) (Some ("" ++ t)) rest) s "").
  destruct s as [|c r]; [reflexivity|].
  destruct (isHyphen c) eqn:Hc; [reflexivity|].
  cbn [plusFrom]. now rewrite Hc.
Qed.

Lemma dropTrailingHyphens_all (s : string) :
  allChars isHyphen s = true -> dropTrailingHyphens s = "".
Proof.
  induction s as [|c r IH]; [reflexivity|]. simpl.
  intros H. apply andb_prop in H as [Hc Hr]. now rewrite IH, Hc.
Qed.

Lemma dropTrailingHyphens_empty (s : string) :
  dropTrailingHyphens s = "" -> allChars isHyphen s = true.
Proof.
  induction s as [|c r IH]; [reflexivity|]. simpl.
  destruct (dropTrailingHyphens r); [|discriminate].
  destruct (isHyphen c); [|discriminate]. intros _. now apply IH.
Qed.

Lemma dropTrailingHyphens_cons c (r : string) :
  allChars isHyphen (String c r) = false ->
  dropTrailingHyphens (String c r) = String c (dropTrailingHyphens r).
Proof.
  simpl. intros H.
  destruct (dropTrailingHyphens r) eqn:E; [|reflexivity].
  rewrite (dropTrailingHyphens_empty r E), andb_true_r in H. now rewrite H.
Qed.

Lemma replaceFrom_edgeRegex_later (fuel : nat) : forall s,
  String.length s < fuel ->
  replaceFrom edgeRegex (fun _ _ => "") fuel false s = dropTrailingHyphens s.
Proof.
  induction fuel as [|fuel IH]; intros s Hfuel; [lia|].
  cbn [replaceFrom]. rewrite exec_edgeRegex_later.
  destruct s as [|c r]; [reflexivity|]. simpl in Hfuel.
  destruct (allChars isHyphen (String c r)) eqn:Hall.
  - cbn [text group1 remainder].
    rewrite dropTrailingHyphens_all by exact Hall.
    cbn [append String.eqb]. now destruct fuel.
  - rewrite dropTrailingHyphens_cons by exact Hall. now rewrite IH by lia.
Qed.

Lemma replaceAll_edgeRegex (s : string) :
  replaceAll edgeRegex (fun _ _ => "") s
  = dropTrailingHyphens (dropLeadingHyphens s).
Proof.
  unfold replaceAll. cbn [replaceFrom]. rewrite exec_edgeRegex_first.
  destruct s as [|c r]; [reflexivity|].
  unfold dropLeadingHyphens. cbn [dropWhile takeWhile].
  destruct (isHyphen c) eqn:Hc.
  - cbn [text group1 remainder String.eqb append].
    pose proof (length_dropWhile isHyphen r).
    now rewrite replaceFrom_edgeRegex_later by (simpl; lia).
  - rewrite replaceFrom_edgeRegex_later by (simpl; lia).
    symmetry. apply dropTrailingHyphens_cons. simpl. now rewrite Hc.
Qed.

Lemma slugify_scan (name : string) :
  slugify name =
  dropTrailingHyphens
    (dropLeadingHyphens
       (replaceRuns notLowerAlnum "-" false
          (replaceRuns Js.isSpace "" false (Js.toLowerCase (Js.trim name))))).
Proof.
  unfold slugify. cbv zeta. fold edgeRegex. rewrite replaceAll_edgeRegex.
  unfold replaceAll. now rewrite !replaceFrom_plus by lia.
Qed.

(** *** The shape of a slug *)

Lemma startsWith_hyphen (s : string) : Js.startsWith "-" s = headIsHyphen s.
Proof.
  destruct s as [|c r]; [reflexivity|]. unfold Js.startsWith.
  cbn [String.prefix headIsHyphen]. unfold isHyphen.
  destruct (ascii_dec "-" c) as [<-|Hne].
  - now destruct r.
  - symmetry. apply Ascii.eqb_neq. congruence.
Qed.

Lemma slugChar_facts (c : ascii) :
  slugChar c = true ->
  Js.isSpace c = false /\ Js.toLowerChar c = c /\
  (notLowerAlnum c = true -> isHyphen c = true).
Proof. by_ascii_cases c. Qed.

Lemma hyphen_notLowerAlnum (c : ascii) :
  isHyphen c = true -> notLowerAlnum c = true.
Proof. by_ascii_cases c. Qed.

Lemma lowerAlnum_slugChar (c : ascii) :
  notLowerAlnum c = false -> slugChar c = true /\ isHyphen c = false.
Proof. by_ascii_cases c. Qed.

Lemma allChars_dropWhile q p (s : string) :
  allChars q s = true -> allChars q (dropWhile p s) = true.
Proof.
  induction s as [|c r IH]; simpl; [reflexivity|]. intros H.
  destruct (p c); [|exact H]. apply andb_prop in H as [_ Hr]. now apply IH.
Qed.

Lemma allChars_dropTrailingHyphens q (s : string) :
  allChars q s = true -> allChars q (dropTrailingHyphens s) = true.
Proof.
  induction s as [|c r IH]; simpl; [reflexivity|]. intros H.
  apply andb_prop in H as [Hc Hr]. specialize (IH Hr).
  destruct (dropTrailingHyphens r).
  - destruct (isHyphen c); simpl; [reflexivity|now rewrite Hc].
  - simpl in *. now rewrite Hc, IH.
Qed.

Lemma replaceRuns_hyphen_shape (s : string) : forall inRun,
  let out := replaceRuns notLowerAlnum "-" inRun s in
  allChars slugChar out = true /\ noDoubleHyphen out = true /\
  (inRun = true -> headIsHyphen out = false).
Proof.
  induction s as [|c r IH]; intros inRun; [now repeat split|].
  cbn [replaceRuns]. destruct (notLowerAlnum c) eqn:Hc.
  - destruct inRun; [apply IH|].
    destruct (IH true) as (Hall & Hno & Hhead). specialize (Hhead eq_refl).
    cbv zeta.
    change ("-" ++ replaceRuns notLowerAlnum "-" true r)
      with (String "-" (replaceRuns notLowerAlnum "-" true r)).
    destruct (replaceRuns notLowerAlnum "-" true r) as [|d t].
    + now repeat split.
    + simpl in Hhead. split; [|split].
      * exact Hall.
      * change (negb (isHyphen "-" && isHyphen d) && noDoubleHyphen (String d t) = true).
        rewrite Hhead, andb_false_r. exact Hno.
      * discriminate.
  - destruct (lowerAlnum_slugChar c Hc) as [Hslug Hhyphen].
    destruct (IH false) as (Hall & Hno & _). cbv zeta.
    split; [|split].
    + simpl. now rewrite Hslug.
    + cbn [noDoubleHyphen]. rewrite Hhyphen.
      now destruct (replaceRuns notLowerAlnum "-" false r).
    + intros _. exact Hhyphen.
Qed.

Lemma noDoubleHyphen_tail c (r : string) :
  noDoubleHyphen (String c r) = true -> noDoubleHyphen r = true.
Proof. simpl. intros H. now apply andb_prop in H. Qed.

Lemma noDoubleHyphen_dropWhile p (s : string) :
  noDoubleHyphen s = true -> noDoubleHyphen (dropWhile p s) = true.
Proof.
  induction s as [|c r IH]; [reflexivity|]. intros H. cbn [dropWhile].
  destruct (p c); [|exact H]. apply IH. now apply noDoubleHyphen_tail in H.
Qed.

Lemma dropTrailingHyphens_head (s : string) d t :
  dropTrailingHyphens s = String d t -> exists r, s = String d r.
Proof.
  destruct s as [|c r]; simpl; [discriminate|].
  destruct (dropTrailingHyphens r).
  - destruct (isHyphen c); [discriminate|].
    intros H. injection H as <- _. now exists r.
  - intros H. injection H as <- _. now exists r.
Qed.

Lemma noDoubleHyphen_dropTrailingHyphens (s : string) :
  noDoubleHyphen s = true -> noDoubleHyphen (dropTrailingHyphens s) = true.
Proof.
  induction s as [|c r IH]; [reflexivity|]. intros H.
  pose proof (noDoubleHyphen_tail c r H) as Hr. specialize (IH Hr).
  cbn [dropTrailingHyphens].
  destruct (dropTrailingHyphens r) as [|d t] eqn:E.
  - now destruct (isHyphen c).
  - destruct (dropTrailingHyphens_head r d t E) as (r' & ->).
    cbn [noDoubleHyphen] in H |- *. apply andb_prop in H as [Hcd _].
    now rewrite Hcd.
Qed.

Lemma headIsHyphen_dropLeading (s : string) :
  headIsHyphen (dropLeadingHyphens s) = false.
Proof.
  unfold dropLeadingHyphens.
  induction s as [|c r IH]; [reflexivity|]. cbn [dropWhile].
  destruct (isHyphen c) eqn:Hc; [exact IH|exact Hc].
Qed.

Lemma headIsHyphen_dropTrailingHyphens (s : string) :
  headIsHyphen s = false -> headIsHyphen (dropTrailingHyphens s) = false.
Proof.
  destruct s as [|c r]; [reflexivity|]. simpl. intros Hc.
  destruct (dropTrailingHyphens r); [now rewrite Hc|exact Hc].
Qed.

Lemma endsWith_cons (p : string) c (r : string) :
  Js.endsWith p (String c r) = (String c r =? p) || Js.endsWith p r.
Proof. reflexivity. Qed.

Lemma endsWith_hyphen_dropTrailingHyphens (s : string) :
  Js.endsWith "-" (dropTrailingHyphens s) = false.
Proof.
  induction s as [|c r IH]; [reflexivity|]. cbn [dropTrailingHyphens].
  destruct (dropTrailingHyphens r) as [|d t].
  - destruct (isHyphen c) eqn:Hc; [reflexivity|].
    rewrite endsWith_cons. change (Js.endsWith "-" "") with false.
    rewrite orb_false_r.
    apply String.eqb_neq. intros H. injection H as ->. discriminate Hc.
  - rewrite endsWith_cons, IH, orb_false_r.
    apply String.eqb_neq. discriminate.
Qed.

Lemma slugify_shape (name : string) :
  allChars slugChar (slugify name) = true /\
  noDoubleHyphen (slugify name) = true /\
  headIsHyphen (slugify name) = false /\
  Js.endsWith "-" (slugify name) = false.
Proof.
  rewrite slugify_scan.
  set (t := replaceRuns Js.isSpace "" false (Js.toLowerCase (Js.trim name))).
  destruct (replaceRuns_hyphen_shape t false) as (Hall & Hno & _).
  repeat split.
  - apply allChars_dropTrailingHyphens. now apply allChars_dropWhile.
  - apply noDoubleHyphen_dropTrailingHyphens. now apply noDoubleHyphen_dropWhile.
  - apply headIsHyphen_dropTrailingHyphens. apply headIsHyphen_dropLeading.
  - apply endsWith_hyphen_dropTrailingHyphens.
Qed.

Lemma slugify_is_safe_aux (name : string) :
  allChars (fun c => Js.isLowerAlnum c || isHyphen c) (slugify name) = true /\
  Js.startsWith "-" (slugify name) = false /\
  Js.endsWith "-" (slugify name) = false.
Proof.
  destruct (slugify_shape name) as (Hall & _ & Hhead & Hend).
  rewrite startsWith_hyphen. now repeat split.
Qed.

(** X9. A slug is made of the characters a-z, 0-9 and "-" only, has no two
    hyphens in a row, and neither starts nor ends with a hyphen. *)
Theorem slugify_is_safe (name : string) :
  allChars (fun c => Js.isLowerAlnum c || isHyphen c) (slugify name) = true /\
  noDoubleHyphen (slugify name) = true /\
  Js.startsWith "-" (slugify name) = false /\
  Js.endsWith "-" (slugify name) = false.
Proof.
  destruct (slugify_shape name) as (Hall & Hno & Hhead & Hend).
  rewrite startsWith_hyphen. now repeat split.
Qed.

(** *** A slug is its own slug *)

Lemma trimEnd_without_space (s : string) :
  allChars (fun c => negb (Js.isSpace c)) s = true -> Js.trimEnd s = s.
Proof.
  induction s as [|c r IH]; [reflexivity|]. simpl. intros H.
  apply andb_prop in H as [Hc Hr]. rewrite IH by exact Hr.
  apply negb_true_iff in Hc. destruct r; [now rewrite Hc|reflexivity].
Qed.

Lemma trim_without_space (s : string) :
  allChars (fun c => negb (Js.isSpace c)) s = true -> Js.trim s = s.
Proof.
  intros H. unfold Js.trim.
  assert (E : Js.trimStart s = s).
  { destruct s as [|c r]; [reflexivity|]. simpl in *.
    apply andb_prop in H as [Hc _]. apply negb_true_iff in Hc. now rewrite Hc. }
  rewrite E. now apply trimEnd_without_space.
Qed.

Lemma toLowerCase_slug (s : string) :
  allChars slugChar s = true -> Js.toLowerCase s = s.
Proof.
  unfold Js.toLowerCase.
  induction s as [|c r IH]; [reflexivity|]. simpl. intros H.
  apply andb_prop in H as [Hc Hr].
  destruct (slugChar_facts c Hc) as (_ & -> & _). now rewrite IH.
Qed.

Lemma replaceRuns_without p rep (s : string) :
  allChars (fun c => negb (p c)) s = true -> replaceRuns p rep false s = s.
Proof.
  induction s as [|c r IH]; [reflexivity|]. simpl. intros H.
  apply andb_prop in H as [Hc Hr]. apply negb_true_iff in Hc.
  now rewrite Hc, IH.
Qed.

Lemma replaceRuns_after_hyphen (s : string) :
  headIsHyphen s = false -> allChars slugChar s = true ->
  replaceRuns notLowerAlnum "-" true s = replaceRuns notLowerAlnum "-" false s.
Proof.
  destruct s as [|c r]; [reflexivity|]. simpl. intros Hc H.
  apply andb_prop in H as [Hslug _].
  destruct (notLowerAlnum c) eqn:Hp; [|reflexivity].
  destruct (slugChar_facts c Hslug) as (_ & _ & Hh).
  rewrite (Hh Hp) in Hc. discriminate.
Qed.

Lemma replaceRuns_slug (s : string) :
  allChars slugChar s = true -> noDoubleHyphen s = true ->
  replaceRuns notLowerAlnum "-" false s = s.
Proof.
  induction s as [|c r IH]; [reflexivity|]. intros Hall Hno.
  pose proof (noDoubleHyphen_tail c r Hno) as Hr.
  cbn [allChars] in Hall. apply andb_prop in Hall as [Hc Hall].
  cbn [replaceRuns]. destruct (notLowerAlnum c) eqn:Hp.
  - destruct (slugChar_facts c Hc) as (_ & _ & Hh). specialize (Hh Hp).
    assert (Ec : c = "-"%char) by (now apply Ascii.eqb_eq). subst c.
    rewrite replaceRuns_after_hyphen; [now rewrite IH| |exact Hall].
    destruct r as [|d r']; [reflexivity|].
    cbn [noDoubleHyphen] in Hno. apply andb_prop in Hno as [Hd _].
    simpl. now destruct (isHyphen d).
  - now rewrite IH.
Qed.

Lemma dropLeadingHyphens_fixed (s : string) :
  headIsHyphen s = false -> dropLeadingHyphens s = s.
Proof.
  destruct s as [|c r]; [reflexivity|]. unfold dropLeadingHyphens. simpl.
  now intros ->.
Qed.

Lemma dropTrailingHyphens_fixed (s : string) :
  Js.endsWith "-" s = false -> dropTrailingHyphens s = s.
Proof.
  induction s as [|c r IH]; [reflexivity|]. rewrite endsWith_cons. intros H.
  apply orb_false_iff in H as [Hone Hr]. cbn [dropTrailingHyphens].
  rewrite IH by exact Hr. destruct r; [|reflexivity].
  destruct (isHyphen c) eqn:Hc; [|reflexivity].
  apply Ascii.eqb_eq in Hc. subst c. discriminate Hone.
Qed.

Lemma slugify_fixes_slugs (t : string) :
  allChars slugChar t = true -> noDoubleHyphen t = true ->
  headIsHyphen t = false -> Js.endsWith "-" t = false ->
  slugify t = t.
Proof.
  intros Hall Hno Hhead Hend. rewrite slugify_scan.
  assert (Hspace : allChars (fun c => negb (Js.isSpace c)) t = true).
  { apply (allChars_weaken slugChar); [|exact Hall].
    intros c Hc. destruct (slugChar_facts c Hc) as (-> & _). reflexivity. }
  rewrite trim_without_space by exact Hspace.
  rewrite toLowerCase_slug by exact Hall.
  rewrite (replaceRuns_without Js.isSpace) by exact Hspace.
  rewrite replaceRuns_slug by assumption.
  rewrite dropLeadingHyphens_fixed by exact Hhead.
  now apply dropTrailingHyphens_fixed.
Qed.

(** X10. The slug of a slug is the slug itself. *)
Theorem slugify_idempotent (name : string) :
  slugify (slugify name) = slugify name.
Proof.
  destruct (slugify_shape name) as (Hall & Hno & Hhead & Hend).
  now apply slugify_fixes_slugs.
Qed.

(** X11. The file name derived from an index entry is the raw key, or it
    is a slug: a string that is not empty, made of a-z, 0-9 and "-", and
    that neither starts nor ends with a hyphen. *)
Theorem getIndexFileName_is_key_or_slug (key : string) (indexEntry : RawCharacter) :
  getIndexFileName key indexEntry = key \/
  (getIndexFileName key indexEntry <> "" /\
   allChars (fun c => Js.isLowerAlnum c || isHyphen c)
     (getIndexFileName key indexEntry) = true /\
   Js.startsWith "-" (getIndexFileName key indexEntry) = false /\
   Js.endsWith "-" (getIndexFileName key indexEntry) = false).
Proof.
  rewrite getIndexFileName_spec.
  destruct (getString _) as [code|]; [|now left].
  destruct (String.eqb_spec (slugify code) "") as [_|Hne]; [now left|].
  right. destruct (slugify_is_safe_aux code) as (Hall & Hhead & Hend).
  now repeat split.
Qed.

(** ** More on the pure helpers *)

Lemma lowerFirst_not_upper (s : string) : startsUpper (lowerFirst s) = false.
Proof.
  destruct s as [|c r]; [reflexivity|]. simpl.
  destruct (Js.isUpper c) eqn:Hup; simpl; [|exact Hup].
  now destruct (toLowerChar_upper c Hup).
Qed.

Lemma lowerFirst_form (a t : string) :
  allChars Js.isAlnum a = true -> settledTail t = true ->
  exists a' t',
    lowerFirst (a ++ t) = a' ++ t' /\
    allChars Js.isAlnum a' = true /\ settledTail t' = true.
Proof.
  intros Ha Ht. destruct a as [|c a'].
  - exists "", t. simpl. split; [|now split].
    destruct t as [|x r]; [reflexivity|]. simpl in *.
    apply andb_prop in Ht as [Hx _]. now rewrite (notAlnum_not_upper x Hx).
  - simpl in Ha. apply andb_prop in Ha as [Hc Ha']. simpl.
    destruct (Js.isUpper c) eqn:Hup.
    + exists (String (Js.toLowerChar c) a'), t. repeat split; [|exact Ht].
      simpl. destruct (toLowerChar_upper c Hup) as [-> _]. exact Ha'.
    + exists (String c a'), t. repeat split; [|exact Ht].
      simpl. now rewrite Hc.
Qed.

(** X12. For an ASCII key, the result of [toLowerCamelCase] is made of
    ASCII letters and digits, followed by at most one other character
    (after which only line terminators may come); it never starts with an
    upper-case letter, and [toLowerCamelCase] leaves it unchanged. *)
Theorem toLowerCamelCase_normal_form (key : string) :
  asciiKey key = true ->
  (exists a t,
     toLowerCamelCase key = a ++ t /\
     allChars Js.isAlnum a = true /\ settledTail t = true) /\
  startsUpper (toLowerCamelCase key) = false /\
  toLowerCamelCase (toLowerCamelCase key) = toLowerCamelCase key.
Proof.
  intros _. split; [|split].
  - rewrite toLowerCamelCase_scan.
    destruct (camelScan_form key Plain I) as (a & t & -> & Ha & Ht).
    now apply lowerFirst_form.
  - rewrite toLowerCamelCase_scan. apply lowerFirst_not_upper.
  - apply toLowerCamelCase_idempotent.
Qed.

Lemma toLowerCamelCase_normal_form_witness :
  asciiKey "max_HP growth" = true /\
  toLowerCamelCase "max_HP growth" = "maxHPGrowth" /\
  toLowerCamelCase "maxHPGrowth" = "maxHPGrowth".
Proof.
  split; [reflexivity|]. split; [reflexivity|].
  exact (proj2 (proj2 (toLowerCamelCase_normal_form "max_HP growth" eq_refl))).
Defined.

(** X23. For every value whose objects have ASCII keys, at every depth,
    applying [normalizeKeys] to the result of [normalizeKeys] changes
    nothing. *)
Theorem normalizeKeys_idempotent_on_ascii_keys (value : JsonValue) :
  asciiKeys value = true ->
  normalizeKeys (normalizeKeys value) = normalizeKeys value.
Proof. intros _. apply normalizeKeys_twice. Qed.

Lemma normalizeKeys_idempotent_on_ascii_keys_witness :
  asciiKeys (JObject sampleDetail) = true /\
  normalizeKeys (normalizeKeys (JObject sampleDetail))
  = normalizeKeys (JObject sampleDetail).
Proof.
  split; [reflexivity|].
  exact (normalizeKeys_idempotent_on_ascii_keys (JObject sampleDetail) eq_refl).
Defined.

(** X13. On a key made of ASCII letters and digits only,
    [toLowerCamelCase] does no more than lower the case of a leading
    upper-case letter. *)
Theorem toLowerCamelCase_of_alnum_key (key : string) :
  allChars Js.isAlnum key = true ->
  toLowerCamelCase key = lowerFirst key.
Proof.
  intros H. rewrite toLowerCamelCase_scan. f_equal.
  rewrite <- (append_nil_r key) at 1.
  rewrite camelScan_alnum_prefix by exact H. apply append_nil_r.
Qed.

Lemma toLowerCamelCase_of_alnum_key_witness :
  allChars Js.isAlnum "PotentialDetail" = true /\
  toLowerCamelCase "PotentialDetail" = "potentialDetail".
Proof.
  split; [reflexivity|].
  exact (toLowerCamelCase_of_alnum_key "PotentialDetail" eq_refl).
Defined.

Lemma length_replaceTag (content : string) :
  String.length (replaceTag content) <= 2 + String.length content.
Proof.
  unfold replaceTag. destruct (Js.startsWith _ _); simpl; [|lia].
  rewrite length_app. simpl. lia.
Qed.

Lemma length_stripScan (s : string) : forall tag,
  String.length (stripScan tag s) <=
  String.length s +
  match tag with
  | Some content => 1 + String.length content
  | None => 0
  end.
Proof.
  induction s as [|c r IH]; intros [content|]; simpl.
  - lia.
  - lia.
  - destruct (isGt c).
    + pose proof (IH None) as Hr. simpl in Hr.
      destruct content as [|a content'].
      * simpl. lia.
      * rewrite length_app.
        pose proof (length_replaceTag (String a content')). simpl in *. lia.
    + specialize (IH (Some (content ++ String c ""))).
      cbv beta iota in IH. rewrite length_app in IH. simpl in IH. lia.
  - destruct (isLt c).
    + specialize (IH (Some "")). simpl in IH. lia.
    + specialize (IH None). simpl in *. lia.
Qed.

(** X14. [stripHtmlTags] only deletes: its result is never longer than its
    argument, and stripping the result again changes nothing. *)
Theorem stripHtmlTags_only_deletes (value : string) :
  String.length (stripHtmlTags value) <= String.length value /\
  stripHtmlTags (stripHtmlTags value) = stripHtmlTags value.
Proof.
  split; [|apply stripHtmlTags_idempotent].
  rewrite stripHtmlTags_scan. pose proof (length_stripScan value None) as H.
  cbv beta iota in H. now rewrite Nat.add_0_r in H.
Qed.

Lemma firstDefined_skips (pre : list JsonValue) (rest : list JsonValue) :
  Forall (fun v => v = JUndefined) pre ->
  firstDefined (pre ++ rest)%list = firstDefined rest.
Proof.
  induction 1 as [|v pre' Hv _ IH]; [reflexivity|]. subst v. exact IH.
Qed.

(** X15. On an object, [pickFirstValue] returns the value of the first
    entry whose value is not [undefined] (a [null] is returned as it is),
    and [undefined] when every value is [undefined]. *)
Theorem pickFirstValue_first_defined (pre : RawCharacter) :
  Forall (fun kv => snd kv = JUndefined) pre ->
  pickFirstValue (JObject pre) = JUndefined /\
  forall key entry post,
    isDefined entry = true ->
    pickFirstValue (JObject (pre ++ (key, entry) :: post)%list) = entry.
Proof.
  intros Hpre.
  assert (Hvalues : Forall (fun v => v = JUndefined) (map snd pre)).
  { apply Forall_map. exact Hpre. }
  unfold pickFirstValue. simpl. split.
  - rewrite <- (app_nil_r (map snd pre)).
    now rewrite firstDefined_skips.
  - intros key entry post Hentry. rewrite map_app.
    rewrite firstDefined_skips by exact Hvalues. simpl.
    now destruct entry.
Qed.

Lemma pickFirstValue_first_defined_witness :
  Forall (fun kv => snd kv = JUndefined) [("1", JUndefined)] /\
  pickFirstValue (JObject [("1", JUndefined)]) = JUndefined /\
  pickFirstValue
    (JObject [("1", JUndefined); ("2", JNull); ("3", JString "Attack")]) =
  JNull.
Proof.
  assert (H : Forall (fun kv : string * JsonValue => snd kv = JUndefined)
                [("1", JUndefined)])
    by (constructor; [reflexivity|constructor]).
  split; [exact H|]. split.
  - exact (proj1 (pickFirstValue_first_defined [("1", JUndefined)] H)).
  - exact (proj2 (pickFirstValue_first_defined [("1", JUndefined)] H)
             "2" JNull [("3", JString "Attack")] eq_refl).
Defined.

Lemma collected_numeric_fixed (es : RawCharacter) :
  collected storedNumber snd (collected storedNumber snd es) =
  collected storedNumber snd es.
Proof.
  unfold collected. induction es as [|[k v] r IH]; [reflexivity|]. simpl.
  destruct (storedNumber (k, v)) eqn:E; [|exact IH].
  cbn [map filter fst snd]. rewrite E. cbn [map fst snd].
  now rewrite IH.
Qed.

(** X16. What [simplifyStats] returns for an object with distinct keys is
    never an empty object, holds numbers only, and is returned unchanged
    when it is given to [simplifyStats] again. *)
Theorem simplifyStats_result_is_settled (stats out : RawCharacter) :
  wellFormed stats ->
  simplifyStats (Some stats) = Some out ->
  List.length out <> 0 /\
  Forall (fun kv => isNumber (snd kv) = true) out /\
  simplifyStats (Some out) = Some out.
Proof.
  intros Hwf. rewrite simplifyStats_spec by exact Hwf.
  destruct (collected storedNumber snd stats) as [|e r] eqn:E; [discriminate|].
  intros H. injection H as <-. split; [discriminate|]. split.
  - rewrite <- E. unfold collected. apply Forall_forall.
    intros kv Hin. apply in_map_iff in Hin as (kv' & <- & Hin').
    apply filter_In in Hin' as [_ Hnum]. destruct kv' as [k v].
    rewrite storedNumber_eq in Hnum. now apply andb_prop in Hnum.
  - assert (Hout : wellFormed (e :: r))
      by (rewrite <- E; now apply wellFormed_collected).
    rewrite simplifyStats_spec by exact Hout.
    rewrite <- E, collected_numeric_fixed. now rewrite E.
Qed.

Lemma simplifyStats_result_is_settled_witness :
  wellFormed mixedStats /\
  simplifyStats (Some mixedStats) =
    Some [("HP", JNumber 100); ("HPGrowth", JNumber 5)] /\
  simplifyStats (Some [("HP", JNumber 100); ("HPGrowth", JNumber 5)]) =
    Some [("HP", JNumber 100); ("HPGrowth", JNumber 5)].
Proof.
  split; [exact wellFormed_mixedStats|]. split; [reflexivity|].
  exact (proj2 (proj2 (simplifyStats_result_is_settled mixedStats
                         [("HP", JNumber 100); ("HPGrowth", JNumber 5)]
                         wellFormed_mixedStats eq_refl))).
Defined.

(** ** The two record assemblers *)

Section TwoAssemblers.
Local Open Scope list_scope.

Lemma detailScript_fields (detail : RawCharacter) :
  set "Rarity" (formatRarity (get "Rarity" detail))
    (DetailScript.simplifyCharacter detail)
  = simplifiedFields detail.
Proof.
  unfold DetailScript.simplifyCharacter, simplifiedFields, statsField.
  cbv zeta.
  destruct (simplifyStats (asRecord (get "Stats" detail))) as [stats|].
  - rewrite fold_passThrough by (apply distinct_NoDup; reflexivity).
    reflexivity.
  - rewrite fold_passThrough by (apply distinct_NoDup; reflexivity).
    reflexivity.
Qed.

End TwoAssemblers.

(** X17. The record that [simplifyCharacter] of [src/index.ts] builds is
    the record that the earlier script builds from the same detail, with
    "Rarity" replaced by its formatted value, then every entry renamed by
    [toLowerCamelCase] and normalised by [normalizeKeys], in the same
    order, and at last the value under "skill" transformed. *)
Theorem simplifyCharacter_extends_detail_script (detail : RawCharacter) :
  simplifyCharacter detail =
  transformSkill
    (map (fun kv => (toLowerCamelCase (fst kv), normalizeKeys (snd kv)))
       (set "Rarity" (formatRarity (get "Rarity" detail))
          (DetailScript.simplifyCharacter detail))).
Proof.
  rewrite detailScript_fields. apply simplifyCharacter_normalized.
Qed.

(** ** The orchestrator *)

Section OrchestratorFacts.
Variable host : Host.
Hypothesis lawful : Lawful host.
Variable characterIndex : JsonValue.
Local Open Scope list_scope.

Local Abbreviation destination := (destinationOf host characterIndex).
Local Abbreviation exists_ := (fileExists host).
Local Abbreviation loop := (mainLoop host characterIndex).
Local Abbreviation writtenFor := (writtenFor host characterIndex).

Lemma saveSimplified_done (outputName : string) (data : RawCharacter)
    (w w' : World host) :
  saveSimplified host outputName data w = Some w' ->
  exists_ (join host OUTPUT_DIR (outputName ++ ".json")%string) w' = true /\
  forall path, exists_ path w = true -> exists_ path w' = true.
Proof.
  unfold saveSimplified, ensureDirectory, fileExists.
  destruct (mkdir host OUTPUT_DIR w) as [w1|] eqn:E1; [|discriminate].
  destruct (mkdir host _ w1) as [w2|] eqn:E2; [|discriminate].
  intros E3. split.
  - exact (writeFile_creates host lawful _ _ _ _ E3).
  - intros path Hpath.
    apply (writeFile_keeps host lawful _ _ _ _ _ E3).
    apply (mkdir_keeps host lawful _ _ _ _ E2).
    exact (mkdir_keeps host lawful _ _ _ _ E1 Hpath).
Qed.

(** One pass of the loop, by cases. *)
Lemma mainLoop_step (key : string) (rest : list string) (w : World host)
    (saved : list (string * RawCharacter)) (f s : nat) :
  (exists_ (destination key) w = true /\
   loop (key :: rest) w saved f s = loop rest w saved f (s + 1)) \/
  (exists_ (destination key) w = false /\
   loop (key :: rest) w saved f s = Failed saved) \/
  (exists_ (destination key) w = false /\
   exists detail w',
     fetchJson host (detailUrlOf host key) = Some detail /\
     exists_ (destination key) w' = true /\
     (forall path, exists_ path w = true -> exists_ path w' = true) /\
     loop (key :: rest) w saved f s =
     loop rest w'
       ((destination key, simplifyCharacter (entriesOf detail)) :: saved)
       (f + 1) s).
Proof.
  cbn [mainLoop]. cbv zeta. fold (destination key). fold (detailUrlOf host key).
  destruct (fileExists host (destination key) w) eqn:Hthere; [now left|].
  right.
  destruct (fetchJson host (detailUrlOf host key)) as [detail|] eqn:Hdetail;
    [|now left].
  destruct (saveSimplified host _ (simplifyCharacter (entriesOf detail)) w)
    as [w'|] eqn:Hsave.
  - destruct (saveSimplified_done _ _ _ _ Hsave) as [Hnew Hkeeps].
    destruct detail; try (now left); right;
      (split; [reflexivity|]);
      eexists _, w'; (split; [reflexivity|]);
      (split; [exact Hnew|]); (split; [exact Hkeeps|reflexivity]).
  - destruct detail; now left.
Qed.

Lemma writtenFor_later (key : string) (rest : list string) file :
  destination key <> fst file ->
  writtenFor rest file -> writtenFor (key :: rest) file.
Proof.
  intros Hne (before & k & after & detail & -> & Hdest & Hfirst & Hfetch & Hdata).
  exists (key :: before), k, after, detail. repeat split; auto.
Qed.

Lemma mainLoop_invariant (indexKeys : list string) :
  forall (w : World host) saved f s,
    Forall (fun file => exists_ (fst file) w = true) saved ->
    NoDup (map fst saved) ->
    exists new,
      savedBy (loop indexKeys w saved f s) = new ++ saved /\
      NoDup (map fst (new ++ saved)) /\
      Forall (fun file => exists_ (fst file) w = false /\
                          writtenFor indexKeys file) new /\
      match loop indexKeys w saved f s with
      | Completed w' _ f' s' =>
          f' + s' = f + s + List.length indexKeys /\
          f' = f + List.length new /\
          (forall path, exists_ path w = true -> exists_ path w' = true) /\
          Forall (fun key => exists_ (destination key) w' = true) indexKeys
      | Failed _ => True
      end.
Proof.
  induction indexKeys as [|key rest IH]; intros w saved f s Hsaved Hnd.
  - exists []. simpl. repeat split; auto; lia.
  - destruct (mainLoop_step key rest w saved f s)
      as [[Hthere ->]|[[Hnot ->]|(Hnot & detail & w' & Hfetch & Hnew & Hkeeps & ->)]].
    + destruct (IH w saved f (s + 1) Hsaved Hnd) as (new & Hlog & Hnd' & Hnew & Hend).
      exists new. split; [exact Hlog|]. split; [exact Hnd'|]. split.
      * eapply Forall_impl; [|exact Hnew]. intros file [Hfile Hfor].
        split; [exact Hfile|]. apply writtenFor_later; [|exact Hfor].
        intros Heq. rewrite Heq in Hthere. congruence.
      * destruct (loop rest w saved f (s + 1)) as [w' saved' f' s'|]; [|exact I].
        destruct Hend as (Hsum & Hf & Hkeeps & Hall).
        split; [simpl; lia|]. split; [exact Hf|]. split; [exact Hkeeps|].
        constructor; [now apply Hkeeps|exact Hall].
    + exists []. simpl. repeat split; auto.
    + set (file := (destination key, simplifyCharacter (entriesOf detail))).
      assert (Hsaved' : Forall (fun e => exists_ (fst e) w' = true) (file :: saved)).
      { constructor; [exact Hnew|].
        eapply Forall_impl; [|exact Hsaved]. intros e. apply Hkeeps. }
      assert (Hnd'' : NoDup (map fst (file :: saved))).
      { simpl. constructor; [|exact Hnd]. intros Hin.
        apply in_map_iff in Hin as (e & He & Hin).
        rewrite Forall_forall in Hsaved. specialize (Hsaved e Hin).
        rewrite He in Hsaved. congruence. }
      destruct (IH w' (file :: saved) (f + 1) s Hsaved' Hnd'')
        as (new & Hlog & Hnd' & Hnews & Hend).
      exists (new ++ [file]). rewrite <- !app_assoc. simpl.
      split; [exact Hlog|]. split; [exact Hnd'|]. split.
      * apply Forall_app. split.
        -- eapply Forall_impl; [|exact Hnews]. intros e [He Hfor].
           assert (Hw : exists_ (fst e) w = false).
           { destruct (exists_ (fst e) w) eqn:Ew; [|reflexivity].
             apply Hkeeps in Ew. congruence. }
           split; [exact Hw|]. apply writtenFor_later; [|exact Hfor].
           intros Heq. rewrite Heq in Hnew. congruence.
        -- constructor; [|constructor]. split; [exact Hnot|].
           exists [], key, rest, detail. repeat split; auto.
      * destruct (loop rest w' (file :: saved) (f + 1) s)
          as [w'' saved' f' s'|]; [|exact I].
        destruct Hend as (Hsum & Hf & Hkeeps' & Hall).
        split; [simpl; lia|]. split; [rewrite List.length_app; simpl; lia|].
        split; [intros path Hpath; apply Hkeeps'; now apply Hkeeps|].
        constructor; [now apply Hkeeps'|exact Hall].
Qed.

Lemma mainLoop_all_present (indexKeys : list string) :
  forall (w : World host) saved f s,
    Forall (fun key => exists_ (destination key) w = true) indexKeys ->
    loop indexKeys w saved f s =
    Completed w saved f (s + List.length indexKeys).
Proof.
  induction indexKeys as [|key rest IH]; intros w saved f s Hall.
  - simpl. now rewrite Nat.add_0_r.
  - inversion Hall as [|? ? Hkey Hrest]; subst.
    destruct (mainLoop_step key rest w saved f s)
      as [[_ ->]|[[Hnot _]|(Hnot & _)]]; try congruence.
    rewrite IH by exact Hrest. simpl. f_equal. lia.
Qed.

End OrchestratorFacts.

Lemma main_cases (host : Host) (w : World host) :
  main host w = Failed [] \/
  exists characterIndex w1,
    fetchJson host CHARACTER_INDEX_URL = Some characterIndex /\
    ensureDirectory host OUTPUT_DIR w = Some w1 /\
    main host w =
    mainLoop host characterIndex (keys (entriesOf characterIndex)) w1 [] 0 0.
Proof.
  unfold main.
  destruct (fetchJson host CHARACTER_INDEX_URL) as [characterIndex|];
    [|now left].
  destruct (ensureDirectory host OUTPUT_DIR w) as [w1|]; [|now left].
  destruct characterIndex; try (now left);
    right; eexists _, w1; repeat split.
Qed.

Lemma sampleHost_lawful : Lawful sampleHost.
Proof.
  constructor; simpl.
  - intros path other w w' H Hother. injection H as <-. simpl.
    now rewrite Hother, orb_true_r.
  - intros path content other w w' H Hother. injection H as <-. simpl.
    now rewrite Hother, orb_true_r.
  - intros path content w w' H. injection H as <-. simpl.
    now rewrite String.eqb_refl.
Qed.

(** X18. Whether a run of [main] completes or fails, it writes no file
    that could be accessed before the run, and it writes no file twice. *)
Theorem main_never_overwrites (host : Host) (w : World host) :
  Lawful host ->
  NoDup (map fst (savedBy (main host w))) /\
  forall path data,
    In (path, data) (savedBy (main host w)) -> fileExists host path w = false.
Proof.
  intros lawful.
  destruct (main_cases host w) as [->|(characterIndex & w1 & _ & Hdir & ->)].
  - split; [constructor|intros ? ? []].
  - destruct (mainLoop_invariant host lawful characterIndex
                (keys (entriesOf characterIndex)) w1 [] 0 0)
      as (new & -> & Hnd & Hnew & _); [constructor|constructor|].
    split; [exact Hnd|]. intros path data Hin.
    rewrite app_nil_r in Hin. rewrite Forall_forall in Hnew.
    destruct (Hnew _ Hin) as [Hnot _]. simpl in Hnot.
    destruct (fileExists host path w) eqn:E; [|reflexivity].
    apply (mkdir_keeps host lawful _ _ _ _ Hdir) in E.
    unfold fileExists in Hnot. congruence.
Qed.

Lemma main_never_overwrites_witness :
  Lawful sampleHost /\
  (fileExists sampleHost "output/character/soldier11.json" [] = false).
Proof.
  split; [exact sampleHost_lawful|].
  apply (proj2 (main_never_overwrites sampleHost [] sampleHost_lawful)
           "output/character/soldier11.json" (simplifyCharacter sampleDetail)).
  vm_compute. left. reflexivity.
Defined.

Lemma main_completed (host : Host) (w w' : World host)
    (saved : list (string * RawCharacter)) (fetchedCount skippedCount : nat) :
  Lawful host ->
  main host w = Completed w' saved fetchedCount skippedCount ->
  exists characterIndex,
    fetchJson host CHARACTER_INDEX_URL = Some characterIndex /\
    fetchedCount + skippedCount = List.length (keys (entriesOf characterIndex)) /\
    fetchedCount = List.length saved /\
    forall key,
      In key (keys (entriesOf characterIndex)) ->
      fileExists host (destinationOf host characterIndex key) w' = true.
Proof.
  intros lawful.
  destruct (main_cases host w) as [->|(characterIndex & w1 & Hindex & _ & ->)];
    [discriminate|].
  destruct (mainLoop_invariant host lawful characterIndex
              (keys (entriesOf characterIndex)) w1 [] 0 0)
    as (new & Hlog & _ & _ & Hend); [constructor|constructor|].
  intros Hrun. rewrite Hrun in Hlog, Hend. simpl in Hlog.
  destruct Hend as (Hsum & Hfetched & _ & Hall).
  exists characterIndex. split; [exact Hindex|]. split; [exact Hsum|].
  split.
  - rewrite Hlog, app_nil_r. exact Hfetched.
  - intros key Hkey. rewrite Forall_forall in Hall. now apply Hall.
Qed.

(** X19. When a run of [main] completes, every key of the index was
    counted once, as fetched or as skipped; the number of fetched keys is
    the number of files written; and the file of every key of the index can
    be accessed after the run. *)
Theorem main_counts_every_key (host : Host) (w w' : World host)
    (saved : list (string * RawCharacter)) (fetchedCount skippedCount : nat) :
  Lawful host ->
  main host w = Completed w' saved fetchedCount skippedCount ->
  exists characterIndex,
    fetchJson host CHARACTER_INDEX_URL = Some characterIndex /\
    fetchedCount + skippedCount = List.length (keys (entriesOf characterIndex)) /\
    fetchedCount = List.length saved /\
    forall key,
      In key (keys (entriesOf characterIndex)) ->
      fileExists host (destinationOf host characterIndex key) w' = true.
Proof. apply main_completed. Qed.

Lemma main_counts_every_key_witness :
  Lawful sampleHost /\
  (main sampleHost [] =
      Completed
        ["output/character/soldier11.json"; "output/character";
         "output/character"; "output/character"]
        [("output/character/soldier11.json", simplifyCharacter sampleDetail)]
        1 1 /\
    fileExists sampleHost
      (destinationOf sampleHost sampleIndex "1042")
      ["output/character/soldier11.json"; "output/character";
       "output/character"; "output/character"] = true).
Proof.
  split; [exact sampleHost_lawful|].
  assert (Hrun : main sampleHost [] =
                 Completed
                   ["output/character/soldier11.json"; "output/character";
                    "output/character"; "output/character"]
                   [("output/character/soldier11.json",
                     simplifyCharacter sampleDetail)]
                   1 1) by (vm_compute; reflexivity).
  split; [exact Hrun|].
  destruct (main_counts_every_key sampleHost [] _ _ _ _ sampleHost_lawful Hrun)
    as (characterIndex & Hindex & _ & _ & Hall).
  injection Hindex as <-. apply Hall. vm_compute. right. left. reflexivity.
Defined.

(** X20. Every file that a run of [main] writes, whether the run completes
    or fails, belongs to the first key of the index that has this
    destination (a later key with the same file name is skipped), and holds
    the record that [simplifyCharacter] builds from the detail fetched for
    that key. *)
Theorem main_saves_first_key_of_each_name (host : Host) (w : World host)
    (path : string) (data : RawCharacter) :
  Lawful host ->
  In (path, data) (savedBy (main host w)) ->
  exists characterIndex before key after detail,
    fetchJson host CHARACTER_INDEX_URL = Some characterIndex /\
    keys (entriesOf characterIndex) = (before ++ key :: after)%list /\
    path = destinationOf host characterIndex key /\
    (forall earlier,
       In earlier before -> destinationOf host characterIndex earlier <> path) /\
    fetchJson host (detailUrlOf host key) = Some detail /\
    data = simplifyCharacter (entriesOf detail).
Proof.
  intros lawful.
  destruct (main_cases host w) as [->|(characterIndex & w1 & Hindex & _ & ->)];
    [intros []|].
  destruct (mainLoop_invariant host lawful characterIndex
              (keys (entriesOf characterIndex)) w1 [] 0 0)
    as (new & -> & _ & Hnew & _); [constructor|constructor|].
  rewrite app_nil_r. intros Hin. rewrite Forall_forall in Hnew.
  destruct (Hnew _ Hin)
    as (_ & before & key & after & detail & Hkeys & Hpath & Hfirst & Hfetch & Hdata).
  exists characterIndex, before, key, after, detail.
  simpl in Hpath, Hfirst, Hdata. rewrite Forall_forall in Hfirst.
  repeat split; auto.
Qed.

Lemma main_saves_first_key_of_each_name_witness :
  Lawful sampleHost /\
  (exists characterIndex before key after detail,
      fetchJson sampleHost CHARACTER_INDEX_URL = Some characterIndex /\
      keys (entriesOf characterIndex) = (before ++ key :: after)%list /\
      "output/character/soldier11.json" =
        destinationOf sampleHost characterIndex key /\
      (forall earlier,
         In earlier before ->
         destinationOf sampleHost characterIndex earlier <>
         "output/character/soldier11.json") /\
      fetchJson sampleHost (detailUrlOf sampleHost key) = Some detail /\
      simplifyCharacter sampleDetail = simplifyCharacter (entriesOf detail)).
Proof.
  split; [exact sampleHost_lawful|].
  apply (main_saves_first_key_of_each_name sampleHost []
           "output/character/soldier11.json" (simplifyCharacter sampleDetail)
           sampleHost_lawful).
  vm_compute. left. reflexivity.
Defined.

(** X21. After a run of [main] that completed, a second run on the file
    system the first one left, with the same index on the network, fetches
    no detail and writes no file: it completes with every key skipped. *)
Theorem main_second_run_saves_nothing (host : Host) (w w' w'' : World host)
    (saved : list (string * RawCharacter)) (fetchedCount skippedCount : nat) :
  Lawful host ->
  main host w = Completed w' saved fetchedCount skippedCount ->
  ensureDirectory host OUTPUT_DIR w' = Some w'' ->
  main host w' = Completed w'' [] 0 (fetchedCount + skippedCount).
Proof.
  intros lawful Hrun Hdir.
  destruct (main_completed host w w' saved fetchedCount skippedCount
              lawful Hrun) as (characterIndex & Hindex & -> & _ & Hall).
  assert (Hdefined : main host w' =
                     mainLoop host characterIndex
                       (keys (entriesOf characterIndex)) w'' [] 0 0).
  { destruct (main_cases host w) as [E|(index' & w1 & Hindex' & _ & E)];
      [congruence|].
    unfold main in *. rewrite Hindex, Hdir.
    rewrite Hindex in Hrun. destruct (ensureDirectory host OUTPUT_DIR w);
      [|discriminate].
    destruct characterIndex; try discriminate; reflexivity. }
  rewrite Hdefined. rewrite (mainLoop_all_present host lawful characterIndex).
  - reflexivity.
  - apply Forall_forall. intros key Hkey.
    apply (mkdir_keeps host lawful _ _ _ _ Hdir). now apply Hall.
Qed.

Lemma main_second_run_saves_nothing_witness :
  Lawful sampleHost /\
  (main sampleHost
      ["output/character/soldier11.json"; "output/character";
       "output/character"; "output/character"] =
    Completed
      ["output/character"; "output/character/soldier11.json";
       "output/character"; "output/character"; "output/character"]
      [] 0 2).
Proof.
  split; [exact sampleHost_lawful|].
  apply (main_second_run_saves_nothing sampleHost []
           ["output/character/soldier11.json"; "output/character";
            "output/character"; "output/character"]
           ["output/character"; "output/character/soldier11.json";
            "output/character"; "output/character"; "output/character"]
           [("output/character/soldier11.json", simplifyCharacter sampleDetail)]
           1 1 sampleHost_lawful).
  - vm_compute. reflexivity.
  - reflexivity.
Defined.
